(** * MusicAppFlaskBackend: the catalog and identity services of [app.py]

    A shallow embedding of the Flask application: the two SQLite tables,
    the blob directory, the session, the two service classes and the
    request handlers, followed by the properties of the specification
    that were checked against them.

    Conventions.
    - A Python value that is either [None] or a [str] (a field of a JSON
      object read with [data.get], a form field read with
      [request.form.get]) is an [option string].  A [str] is the sequence
      of its code points, each below 256 (Latin-1); what [str.isdigit],
      [str.lower] and [int] do is given for all of these.
    - A call that may raise returns a [result]; a handler returns the
      world it leaves behind together with an [outcome], which is either
      the response it built or the exception that escaped it.
    - What lives outside [app.py] (the configuration constants, werkzeug's
      [secure_filename] and password hashing) is a field of the class
      [Environment]. *)

From Stdlib Require Import ZArith String Ascii List Bool Lia.
From stdpp Require Import gmap strings list fin_maps sorting.
Import ListNotations.

Local Open Scope string_scope.
Local Open Scope Z_scope.

(** ** Python values, exceptions *)

Definition pyval := option string.

(** [not v] is false exactly for a non-empty string. *)
Definition truthy (v : pyval) : bool :=
  match v with
  | None => false
  | Some s => negb (String.eqb s "")
  end.

Inductive exn :=
| IntegrityError (msg : string)
| OverflowError
| OperationalError
| AttributeError
| ValueError
| OSError.

Inductive result (A : Type) :=
| Return (a : A)
| Raise (e : exn).
Arguments Return {A} a.
Arguments Raise {A} e.

Definition bind {A B} (r : result A) (k : A -> result B) : result B :=
  match r with
  | Return a => k a
  | Raise e => Raise e
  end.

Notation "x <- r ;; k" := (bind r (fun x => k))
  (at level 100, r at next level, right associativity).

(** ** String methods used by the handlers *)

(** The decimal digits (Unicode category Nd) below 256: "0" to "9". *)
Definition is_ascii_digit (c : ascii) : bool :=
  let n := nat_of_ascii c in (48 <=? n)%nat && (n <=? 57)%nat.

(** The characters that [str.isdigit] accepts: the decimal digits and,
    below 256, the superscripts two, three and one (U+00B2, U+00B3,
    U+00B9), which are digits without being decimal. *)
Definition is_digit_char (c : ascii) : bool :=
  let n := nat_of_ascii c in
  is_ascii_digit c || (n =? 178)%nat || (n =? 179)%nat || (n =? 185)%nat.

Fixpoint all_digits (s : string) : bool :=
  match s with
  | EmptyString => true
  | String c r => is_digit_char c && all_digits r
  end.

Fixpoint all_decimal (s : string) : bool :=
  match s with
  | EmptyString => true
  | String c r => is_ascii_digit c && all_decimal r
  end.

(** [str.isdigit]: at least one character, all of them digits. *)
Definition isdigit (s : string) : bool :=
  negb (String.eqb s "") && all_digits s.

Fixpoint int_acc (acc : Z) (s : string) : Z :=
  match s with
  | EmptyString => acc
  | String c r => int_acc (10 * acc + (Z.of_nat (nat_of_ascii c) - 48)) r
  end.

(** [str.lower] on one character below 256: "A" to "Z", and the capital
    letters U+00C0 to U+00DE other than the multiplication sign U+00D7. *)
Definition lower_ascii (c : ascii) : ascii :=
  let n := nat_of_ascii c in
  if (65 <=? n)%nat && (n <=? 90)%nat then ascii_of_nat (n + 32)
  else if (192 <=? n)%nat && (n <=? 222)%nat && negb (n =? 215)%nat
       then ascii_of_nat (n + 32)
  else c.

Fixpoint lower (s : string) : string :=
  match s with
  | EmptyString => EmptyString
  | String c r => String (lower_ascii c) (lower r)
  end.

(** ['.' in s] *)
Fixpoint contains_dot (s : string) : bool :=
  match s with
  | EmptyString => false
  | String c r => Ascii.eqb c "."%char || contains_dot r
  end.

(** [s.rsplit('.', 1)]: the text before and after the last dot, or [s]
    alone when it has none. *)
Fixpoint rsplit_dot (s : string) : list string :=
  match s with
  | EmptyString => [EmptyString]
  | String c r =>
      match rsplit_dot r with
      | [a; b] => [String c a; b]
      | _ => if Ascii.eqb c "."%char then [EmptyString; r] else [String c r]
      end
  end.

(** [os.path.join(a, b)] of [posixpath]. *)
Definition os_path_join (a b : string) : string :=
  if String.prefix "/" b then b
  else if String.eqb a "" then b
  else if String.eqb (String.substring (String.length a - 1) 1 a) "/" then a +:+ b
  else a +:+ "/" +:+ b.

(** ** The store: two tables with AUTOINCREMENT keys *)

Record song_row := {
  title : string;
  author : string;
  duration : Z;
  music_file_url : string
}.

Record user_row := {
  user_id : Z;
  username : string;
  password : string
}.

(** [songs] is keyed by its primary key.  [users] is only ever appended
    to and is searched by name and by key, so it is kept as the list of
    its rows in insertion order.  [songs_seq] and [users_seq] are the
    entries of [sqlite_sequence]: the largest key each table ever held. *)
Record database := {
  songs : gmap Z song_row;
  songs_seq : Z;
  users : list user_row;
  users_seq : Z
}.

Definition max_key {A} (m : gmap Z A) : Z :=
  map_fold (fun k _ acc => Z.max k acc) 0 m.

Definition max_id (l : list user_row) : Z :=
  fold_right (fun r acc => Z.max (user_id r) acc) 0 l.

(** The key AUTOINCREMENT gives to a new row: one more than the largest
    key the table holds or ever held.  (For [users], SQLite's ceiling on
    keys, 2^63-1, is out of reach of a table filled one row per request;
    for [songs], whose keys also arrive in requests, [add_song] has it.) *)
Definition next_rowid (seq largest : Z) : Z := Z.max seq largest + 1.

(** [init_db] on a path where no file exists yet. *)
Definition init_db : database :=
  {| songs := ∅; songs_seq := 0; users := []; users_seq := 0 |}.

Definition int64_max : Z := 9223372036854775807.
Definition int64_min : Z := -9223372036854775808.

(** ** DatabaseService *)

(** Binding an [int] as a parameter of a statement: the [sqlite3] module
    raises [OverflowError] for one that does not fit in 64 bits. *)
Definition bind_int64 (n : Z) : result Z :=
  if (int64_min <=? n) && (n <=? int64_max) then Return n else Raise OverflowError.

(** The duration is bound first; the three text columns are NOT NULL; and
    a table that has held the key 2^63-1 takes no further row (SQLITE_FULL,
    an [OperationalError]). *)
Definition add_song (title author : pyval) (duration : Z) (music_file_url : string)
    (d : database) : result (database * Z) :=
  if negb ((int64_min <=? duration) && (duration <=? int64_max)) then Raise OverflowError
  else
    match title, author with
    | None, _ => Raise (IntegrityError "NOT NULL constraint failed: songs.title")
    | Some _, None => Raise (IntegrityError "NOT NULL constraint failed: songs.author")
    | Some t, Some a =>
        if int64_max <=? Z.max (songs_seq d) (max_key (songs d))
        then Raise OperationalError
        else
          let song_id := next_rowid (songs_seq d) (max_key (songs d)) in
          let row := {| title := t; author := a; duration := duration;
                        music_file_url := music_file_url |} in
          Return ({| songs := <[song_id := row]> (songs d);
                     songs_seq := song_id;
                     users := users d;
                     users_seq := users_seq d |}, song_id)
    end.

(** The id is bound as the parameter of the SELECT, then the row is
    fetched. *)
Definition get_song (song_id : Z) (d : database) : result (option song_row) :=
  k <- bind_int64 song_id ;; Return (songs d !! k).

(** Rows come out of the table in the order of their keys. *)
Definition rowid_le (x y : Z * song_row) : Prop := x.1 <= y.1.

#[global] Instance rowid_le_dec : RelDecision rowid_le.
Proof. intros x y. unfold rowid_le. apply _. Defined.

#[global] Instance rowid_le_total : Total rowid_le.
Proof. intros x y. unfold rowid_le. lia. Qed.

Definition get_all_songs_rows (d : database) : list (Z * song_row) :=
  merge_sort rowid_le (map_to_list (songs d)).

(** ** The blob directory *)

Inductive node :=
| RegularFile (data : list Byte.byte)
| Directory.

(** [os.path.exists] *)
Definition os_path_exists (path : string) (fs : gmap string node) : bool :=
  bool_decide (is_Some (fs !! path)).

(** [os.remove]: unlinks a regular file; on a directory, or on a path
    that does not exist, the system call fails and [OSError] is raised. *)
Definition os_remove (path : string) (fs : gmap string node) : result (gmap string node) :=
  match fs !! path with
  | Some (RegularFile _) => Return (delete path fs)
  | Some Directory => Raise OSError
  | None => Raise OSError
  end.

(** [FileStorage.save]: creates or overwrites the file at [path]; opening
    a directory for writing fails.  The blob directory itself is taken to
    exist, as it does once the start-up block of [app.py] has run. *)
Definition file_save (path : string) (data : list Byte.byte) (fs : gmap string node)
    : result (gmap string node) :=
  match fs !! path with
  | Some Directory => Raise OSError
  | _ => Return (<[path := RegularFile data]> fs)
  end.

Record world := {
  db : database;
  fs : gmap string node
}.

Definition with_db (d : database) (w : world) : world := {| db := d; fs := fs w |}.
Definition with_fs (f : gmap string node) (w : world) : world := {| db := db w; fs := f |}.

(** ** Requests, session and responses *)

(** The Flask session holds at most the key ['user_id']. *)
Definition session := option Z.

Record file_storage := {
  filename : string;
  stream : list Byte.byte
}.

(** [bool(file)]: a [FileStorage] is true when it has a filename. *)
Definition file_truthy (f : file_storage) : bool := negb (String.eqb (filename f) "").

Record upload_request := {
  files_file : option file_storage;
  form_title : pyval;
  form_author : pyval;
  form_duration : pyval
}.

(** The body of a registration or a login: a JSON object, of which the
    handlers read two fields, each absent, null or a string. *)
Record credentials := {
  json_username : pyval;
  json_password : pyval
}.

Inductive body :=
| JError (error : string)
| JMessage (message : string)
| JUploaded (message : string) (song_id : Z) (title author : pyval) (duration : Z)
    (music_file_url : string)
| JSong (song_id : Z) (title author : string) (duration : Z) (music_file_url : string)
| JSongList (rows : list (Z * song_row))
| FileBody (data : list Byte.byte)
| NotFoundPage.

(** What a handler ends with: the response it returned (or the 404 page of
    [abort(404)]), or an exception nothing caught. *)
Inductive outcome :=
| Response (status : Z) (b : body)
| Unhandled (e : exn).

Definition abort404 : outcome := Response 404 NotFoundPage.

(** ** What [app.py] imports

    [config.py] is not among the sources, so its constants are fields of
    the environment, next to the werkzeug functions the handlers call and
    the one setting of the interpreter that shows in a response:
    [int_max_str_digits] is [sys.get_int_max_str_digits()], 4300 by
    default since CPython 3.11 and 0 (no limit) when there is none.
    [generate_password_hash] draws a random salt, which is made an
    argument here; [pwhash_matches] is the comparison that
    [check_password_hash] makes between a stored hash and a string. *)
Class Environment := {
  SONG_DIRECTORY : string;
  ALLOWED_EXTENSIONS : list string;
  int_max_str_digits : nat;
  secure_filename : string -> string;
  safe_join : string -> string -> option string;
  generate_password_hash : string -> string -> string;
  pwhash_matches : string -> string -> bool
}.

Section App.

Context {env : Environment}.

(** [int(text)] for a [text] that passed [isdigit], so that there is no
    sign, blank or underscore to set aside: [ValueError] when a character
    is not a decimal digit, or when there are more digits than the
    interpreter converts. *)
Definition int (text : string) : result Z :=
  if String.eqb text "" || negb (all_decimal text) then Raise ValueError
  else if negb (int_max_str_digits =? 0)%nat
          && (int_max_str_digits <? String.length text)%nat
       then Raise ValueError
  else Return (int_acc 0 text).

(** [check_password_hash(pwhash, password)] starts by encoding [password]
    ([password.encode()]), which [None] does not have. *)
Definition check_password_hash (pwhash : string) (pass : pyval) : result bool :=
  match pass with
  | None => Raise AttributeError
  | Some p => Return (pwhash_matches pwhash p)
  end.

(** ** AuthService *)

(** [SELECT ... FROM users WHERE username = ?] followed by [fetchone]. *)
Definition select_user_by_name (name : string) (d : database) : option user_row :=
  List.find (fun r => String.eqb (username r) name) (users d).

(** [SELECT ... FROM users WHERE id = ?] followed by [fetchone]. *)
Definition select_user_by_id (uid : Z) (d : database) : option user_row :=
  List.find (fun r => user_id r =? uid) (users d).

(** The INSERT violates the UNIQUE constraint when the name is taken; the
    [IntegrityError] is caught and turned into [False]. *)
Definition register_user (salt name pass : string) (d : database) : database * bool :=
  let hashed_password := generate_password_hash salt pass in
  match select_user_by_name name d with
  | Some _ => (d, false)
  | None =>
      let uid := next_rowid (users_seq d) (max_id (users d)) in
      ({| songs := songs d;
          songs_seq := songs_seq d;
          users := users d ++ [{| user_id := uid; username := name;
                                  password := hashed_password |}];
          users_seq := uid |}, true)
  end.

(** A [None] name compares equal to no stored name.  [user and ...] does
    not evaluate the hash check when no row was found. *)
Definition verify_user (name pass : pyval) (d : database) : result (option Z) :=
  let user := match name with
              | None => None
              | Some n => select_user_by_name n d
              end in
  match user with
  | None => Return None
  | Some row =>
      ok <- check_password_hash (password row) pass ;;
      Return (if ok : bool then Some (user_id row) else None)
  end.

Definition get_username_by_id (uid : Z) (d : database) : option string :=
  match select_user_by_id uid d with
  | Some row => Some (username row)
  | None => None
  end.

(** ** Handlers *)

Definition allowed_file (name : string) : bool :=
  contains_dot name
  && bool_decide (lower (nth 1 (rsplit_dot name) "") ∈ ALLOWED_EXTENSIONS).

(** The decorator: [f] runs only when the session has a ['user_id'], and
    is handed the value [session.get('user_id')] will read. *)
Definition login_required (s : session) (w : world) (f : Z -> world * outcome)
    : world * outcome :=
  match s with
  | None => (w, Response 401 (JError "Authentication required"))
  | Some uid => f uid
  end.

Definition register (salt : string) (data : credentials) (w : world) : world * outcome :=
  let name := json_username data in
  let pass := json_password data in
  if negb (truthy name) || negb (truthy pass)
  then (w, Response 400 (JError "Username and password are required"))
  else
    match name, pass with
    | Some n, Some p =>
        match register_user salt n p (db w) with
        | (d', true) => (with_db d' w, Response 201 (JMessage "User registered successfully"))
        | (_, false) => (w, Response 409 (JError "Username already exists"))
        end
    | _, _ => (w, Response 400 (JError "Username and password are required"))
    end.

(** [if user_id:] is false for [None] and for the integer 0. *)
Definition login (data : credentials) (s : session) (w : world) : session * outcome :=
  match verify_user (json_username data) (json_password data) (db w) with
  | Raise e => (s, Unhandled e)
  | Return (Some uid) =>
      if uid =? 0 then (s, Response 401 (JError "Invalid username or password"))
      else (Some uid, Response 200 (JMessage "Login successful"))
  | Return None => (s, Response 401 (JError "Invalid username or password"))
  end.

Definition logout (s : session) : session * outcome :=
  match s with
  | None => (s, Response 401 (JError "Authentication required"))
  | Some _ => (None, Response 200 (JMessage "Logged out successfully"))
  end.

Definition upload_song (s : session) (req : upload_request) (w : world) : world * outcome :=
  login_required s w (fun uid =>
    let name := get_username_by_id uid (db w) in
    if bool_decide (name ≠ Some "admin")
    then (w, Response 403 (JError "You do not have permission to upload songs"))
    else
      match files_file req with
      | None => (w, Response 400 (JError "No file part"))
      | Some file =>
          let title := form_title req in
          let author := form_author req in
          match form_duration req with
          | None => (w, Response 400 (JError "Invalid duration provided"))
          | Some text =>
              if negb (truthy (Some text)) || negb (isdigit text)
              then (w, Response 400 (JError "Invalid duration provided"))
              else
                match int text with
                | Raise e => (w, Unhandled e)
                | Return duration =>
                    if file_truthy file && allowed_file (filename file) then
                      let name := secure_filename (filename file) in
                      let file_path := os_path_join SONG_DIRECTORY name in
                      match file_save file_path (stream file) (fs w) with
                      | Raise e => (w, Unhandled e)
                      | Return fs' =>
                          let music_file_url := name in
                          match add_song title author duration music_file_url (db w) with
                          | Raise e => (with_fs fs' w, Unhandled e)
                          | Return (d', song_id) =>
                              ({| db := d'; fs := fs' |},
                               Response 200 (JUploaded "Song uploaded successfully" song_id
                                               title author duration music_file_url))
                          end
                      end
                    else (w, Response 400 (JError "Invalid file format"))
                end
          end
      end).

(** The id is bound and the row is read, the blob is unlinked when its
    path exists, and only then is the row deleted and the transaction
    committed. *)
Definition delete_song (s : session) (song_id : Z) (w : world) : world * outcome :=
  login_required s w (fun uid =>
    let name := get_username_by_id uid (db w) in
    if bool_decide (name ≠ Some "admin")
    then (w, Response 403 (JError "You do not have permission to delete songs"))
    else
      match bind_int64 song_id with
      | Raise e => (w, Unhandled e)
      | Return k =>
          match songs (db w) !! k with
          | Some song =>
              let file_path := os_path_join SONG_DIRECTORY (music_file_url song) in
              let removed := if os_path_exists file_path (fs w)
                             then os_remove file_path (fs w)
                             else Return (fs w) in
              match removed with
              | Raise e => (w, Unhandled e)
              | Return fs' =>
                  ({| db := {| songs := delete k (songs (db w));
                               songs_seq := songs_seq (db w);
                               users := users (db w);
                               users_seq := users_seq (db w) |};
                      fs := fs' |},
                   Response 200 (JMessage "Song deleted successfully"))
              end
          | None => (w, Response 404 (JError "Song not found"))
          end
      end).

Definition serve_song (s : session) (song_id : Z) (w : world) : world * outcome :=
  login_required s w (fun _ =>
    match get_song song_id (db w) with
    | Raise e => (w, Unhandled e)
    | Return (Some song) =>
        (w, Response 200 (JSong song_id (title song) (author song) (duration song)
                            (music_file_url song)))
    | Return None => (w, abort404)
    end).

Definition get_all_songs (s : session) (w : world) : world * outcome :=
  login_required s w (fun _ =>
    (w, Response 200 (JSongList (get_all_songs_rows (db w))))).

(** [send_from_directory] answers 404 when [safe_join] rejects the name or
    when the joined path is not a regular file. *)
Definition send_from_directory (directory name : string) (w : world) : outcome :=
  match safe_join directory name with
  | None => abort404
  | Some path =>
      match fs w !! path with
      | Some (RegularFile data) => Response 200 (FileBody data)
      | _ => abort404
      end
  end.

(** No decorator: the session is not consulted. *)
Definition play_song (song_id : Z) (w : world) : world * outcome :=
  match get_song song_id (db w) with
  | Raise e => (w, Unhandled e)
  | Return (Some song) => (w, send_from_directory SONG_DIRECTORY (music_file_url song) w)
  | Return None => (w, abort404)
  end.

End App.

(** ** Vocabulary of the properties *)

(** A session that belongs to the user named "admin". *)
Definition admin_session (s : session) (w : world) : Prop :=
  exists uid, s = Some uid /\ get_username_by_id uid (db w) = Some "admin".

Definition unauthenticated : outcome :=
  Response 401 (JError "Authentication required").

(** The path under which the blob of a row is kept. *)
Definition blob_path {env : Environment} (song : song_row) : string :=
  os_path_join SONG_DIRECTORY (music_file_url song).

(** ** A concrete environment and concrete worlds

    Used to run the handlers on examples.  The password scheme is
    werkzeug's historic [plain] method; [secure_filename] and [safe_join]
    are taken on names that are already safe. *)

Definition demo_env : Environment := {|
  SONG_DIRECTORY := "songs";
  ALLOWED_EXTENSIONS := ["mp3"; "wav"; "ogg"];
  int_max_str_digits := 4300;
  secure_filename := fun name => name;
  safe_join := fun directory name => Some (os_path_join directory name);
  generate_password_hash := fun _ pass => "plain$$" +:+ pass;
  pwhash_matches := fun pwhash pass => String.eqb pwhash ("plain$$" +:+ pass)
|}.

(** ** The shape of werkzeug's password hashes

    Both methods of [generate_password_hash], [scrypt] and [pbkdf2], start
    from HMAC-SHA256 keyed with the encoded password, and HMAC first
    brings its key to the 64 bytes of a block: a key of up to 64 bytes is
    padded with zero bytes, a longer one is replaced by its SHA-256 and
    then padded.  [hmac_env] is an environment that hashes in this way;
    the rest of the derivation ([kdf], from the method, the salt and the
    prepared key) and [sha256] are left open.  A stored hash reads
    method$salt$digest, and is checked by deriving again with its own
    method and salt. *)

Fixpoint zero_bytes (n : nat) : string :=
  match n with
  | O => EmptyString
  | S n' => String Ascii.zero (zero_bytes n')
  end.

(** [str.encode()]: UTF-8, one byte below 128 and two from there to 255. *)
Fixpoint utf8_encode (s : string) : string :=
  match s with
  | EmptyString => EmptyString
  | String c r =>
      let n := nat_of_ascii c in
      if (n <? 128)%nat then String c (utf8_encode r)
      else String (ascii_of_nat (192 + n / 64))
             (String (ascii_of_nat (128 + n mod 64)) (utf8_encode r))
  end.

Definition hmac_key (sha256 : string -> string) (key : string) : string :=
  let k := if (String.length key <=? 64)%nat then key else sha256 key in
  k +:+ zero_bytes (64 - String.length k).

(** The text before and after the first "$". *)
Fixpoint split_dollar (s : string) : option (string * string) :=
  match s with
  | EmptyString => None
  | String c r =>
      if Ascii.eqb c "$"%char then Some (EmptyString, r)
      else match split_dollar r with
           | Some (a, b) => Some (String c a, b)
           | None => None
           end
  end.

Definition hmac_env (sha256 : string -> string)
    (kdf : string -> string -> string -> string) : Environment := {|
  SONG_DIRECTORY := "songs";
  ALLOWED_EXTENSIONS := ["mp3"; "wav"; "ogg"];
  int_max_str_digits := 4300;
  secure_filename := fun name => name;
  safe_join := fun directory name => Some (os_path_join directory name);
  generate_password_hash := fun salt pass =>
    "scrypt:32768:8:1$" +:+ salt +:+ "$"
    +:+ kdf "scrypt:32768:8:1" salt (hmac_key sha256 (utf8_encode pass));
  pwhash_matches := fun pwhash pass =>
    match split_dollar pwhash with
    | Some (method, rest) =>
        match split_dollar rest with
        | Some (salt, digest) =>
            String.eqb (kdf method salt (hmac_key sha256 (utf8_encode pass))) digest
        | None => false
        end
    | None => false
    end
|}.

(** [hmac_env] with a derivation that can be run. *)
Definition hmac_demo_env : Environment :=
  hmac_env (fun key => "sha256:" +:+ key)
           (fun method salt key => method +:+ ":" +:+ salt +:+ ":" +:+ key).

(** The string of the one character U+00B2, superscript two. *)
Definition superscript_two : string := String "178"%char "".

(** A password, and the same followed by a NUL character. *)
Definition pw1 : string := "pw1".
Definition pw1_nul : string := String "p" (String "w" (String "1" (String Ascii.zero ""))).

Definition empty_world : world := {| db := init_db; fs := ∅ |}.

(** The store after [register_user('admin', 'pw1')] and
    [register_user('bob', 'pw2')]. *)
Definition two_users : database :=
  {| songs := ∅; songs_seq := 0;
     users := [ {| user_id := 1; username := "admin"; password := "plain$$pw1" |};
                {| user_id := 2; username := "bob"; password := "plain$$pw2" |} ];
     users_seq := 2 |}.

Definition song_T : song_row :=
  {| title := "T"; author := "A"; duration := 180; music_file_url := "song.mp3" |}.

(** One song whose blob is in place. *)
Definition one_song : world :=
  {| db := {| songs := {[ 1 := song_T ]}; songs_seq := 1;
              users := users two_users; users_seq := 2 |};
     fs := {[ "songs/song.mp3" := RegularFile [] ]} |}.

(** The same row, with a directory where the blob should be. *)
Definition one_song_blocked : world :=
  {| db := db one_song;
     fs := {[ "songs/song.mp3" := Directory ]} |}.

Definition song_upload : upload_request :=
  {| files_file := Some {| filename := "song.mp3"; stream := [] |};
     form_title := Some "T"; form_author := Some "A"; form_duration := Some "180" |}.

(** ** Invariants of the store *)

(** What the schema promises of [users]: the names are UNIQUE, the keys
    are a PRIMARY KEY, handed out from 1 upwards and never above the
    entry of [sqlite_sequence]. *)
Definition users_ok (d : database) : Prop :=
  NoDup (username <$> users d) /\
  NoDup (user_id <$> users d) /\
  Forall (fun r => 0 < user_id r <= users_seq d) (users d).

(** And of [songs]: every key is positive and at most the entry of
    [sqlite_sequence]. *)
Definition songs_ok (d : database) : Prop :=
  forall k row, songs d !! k = Some row -> 0 < k <= songs_seq d.

(** * Properties *)

(** ** The tables *)

Lemma max_key_ge {A} (m : gmap Z A) (k : Z) (v : A) :
  m !! k = Some v -> k <= max_key m.
Proof.
  unfold max_key. revert k v.
  apply (map_fold_weak_ind
           (fun acc (m : gmap Z A) => forall k v, m !! k = Some v -> k <= acc)).
  - intros k v Hk. rewrite lookup_empty in Hk. discriminate.
  - intros i x m' r _ IH k v Hk.
    destruct (decide (i = k)) as [->|Hne].
    + lia.
    + rewrite lookup_insert_ne in Hk by assumption.
      specialize (IH k v Hk). lia.
Qed.

(** AUTOINCREMENT never hands out a key that is in use. *)
Lemma next_rowid_fresh {A} (m : gmap Z A) (seq : Z) :
  m !! next_rowid seq (max_key m) = None.
Proof.
  destruct (m !! next_rowid seq (max_key m)) as [v|] eqn:Hk; [|reflexivity].
  apply max_key_ge in Hk. unfold next_rowid in Hk. lia.
Qed.

Lemma find_app_fresh {A} (f : A -> bool) (l : list A) (x : A) :
  List.find f l = None -> f x = true -> List.find f (l ++ [x]) = Some x.
Proof.
  intros Hnone Hx. induction l as [|a l IH]; simpl in *.
  - now rewrite Hx.
  - destruct (f a); [discriminate|]. now apply IH.
Qed.

(** ** DatabaseService *)

Lemma bind_int64_Return (n k : Z) :
  bind_int64 n = Return k <-> k = n /\ int64_min <= n <= int64_max.
Proof.
  unfold bind_int64.
  destruct (int64_min <=? n) eqn:Hlo; destruct (n <=? int64_max) eqn:Hhi; simpl;
    try apply Z.leb_le in Hlo; try apply Z.leb_le in Hhi;
    try apply Z.leb_gt in Hlo; try apply Z.leb_gt in Hhi;
    (split; [intros [= <-]; (repeat split; (reflexivity || lia))
            |intros (Hk & Hrange); (lia || (subst; reflexivity))]).
Qed.

Lemma bind_int64_in_range (n : Z) :
  int64_min <= n <= int64_max -> bind_int64 n = Return n.
Proof. intros Hrange. apply bind_int64_Return. split; [reflexivity|assumption]. Qed.

(** [get_song] returns what the table holds at an id that fits in 64
    bits, and raises on any other. *)
Lemma get_song_Return (song_id : Z) (d : database) (o : option song_row) :
  get_song song_id d = Return o <->
  int64_min <= song_id <= int64_max /\ songs d !! song_id = o.
Proof.
  unfold get_song. split.
  - destruct (bind_int64 song_id) as [k|e] eqn:Hbind; simpl; [|discriminate].
    apply bind_int64_Return in Hbind as [-> Hrange]. intros [= <-]. auto.
  - intros [Hrange <-]. rewrite (bind_int64_in_range _ Hrange). reflexivity.
Qed.

(** What [add_song] did when it returned. *)
Lemma add_song_Return (t a : pyval) (dur : Z) (ref : string) (d d' : database)
    (song_id : Z) :
  add_song t a dur ref d = Return (d', song_id) ->
  exists t' a',
    t = Some t' /\ a = Some a' /\
    int64_min <= dur <= int64_max /\
    song_id = next_rowid (songs_seq d) (max_key (songs d)) /\
    0 < song_id <= int64_max /\
    d' = {| songs := <[song_id := {| title := t'; author := a'; duration := dur;
                                     music_file_url := ref |}]> (songs d);
            songs_seq := song_id;
            users := users d;
            users_seq := users_seq d |}.
Proof.
  unfold add_song.
  destruct ((int64_min <=? dur) && (dur <=? int64_max)) eqn:Hrange; [|discriminate].
  apply andb_prop in Hrange as [Hlo Hhi].
  apply Z.leb_le in Hlo. apply Z.leb_le in Hhi. simpl.
  destruct t as [t'|]; [|discriminate]. destruct a as [a'|]; [|discriminate].
  destruct (int64_max <=? Z.max (songs_seq d) (max_key (songs d))) eqn:Hfull;
    [discriminate|].
  apply Z.leb_gt in Hfull.
  intros [= <- <-]. exists t', a'.
  assert (Hmax : 0 <= max_key (songs d)).
  { unfold max_key.
    apply (map_fold_weak_ind (fun acc (_ : gmap Z song_row) => 0 <= acc)); intros; lia. }
  unfold next_rowid. repeat split; try assumption; lia.
Qed.

(** [add_song] returns on every row the schema accepts, as long as the
    keys have not run out. *)
Lemma add_song_returns (t a : string) (dur : Z) (ref : string) (d : database) :
  int64_min <= dur <= int64_max ->
  Z.max (songs_seq d) (max_key (songs d)) < int64_max ->
  exists d', add_song (Some t) (Some a) dur ref d
             = Return (d', next_rowid (songs_seq d) (max_key (songs d))).
Proof.
  intros [Hlo Hhi] Hfull. unfold add_song.
  apply Z.leb_le in Hlo. apply Z.leb_le in Hhi. apply Z.leb_gt in Hfull.
  rewrite Hlo, Hhi, Hfull. simpl.
  eexists. reflexivity.
Qed.

(** The rows that were there before [add_song] are still there. *)
Lemma add_song_keeps_rows (t a : pyval) (dur : Z) (ref : string) (d d' : database)
    (song_id k : Z) (row : song_row) :
  add_song t a dur ref d = Return (d', song_id) ->
  get_song k d = Return (Some row) ->
  get_song k d' = Return (Some row).
Proof.
  intros Hadd Hk.
  apply add_song_Return in Hadd as (t' & a' & _ & _ & _ & Hid & _ & ->).
  apply get_song_Return in Hk as [Hrange Hk]. apply get_song_Return.
  split; [assumption|]. simpl.
  rewrite lookup_insert_ne; [assumption|].
  intros Heq. rewrite <- Heq, Hid, next_rowid_fresh in Hk. discriminate.
Qed.

(** C4. Whenever [add_song(title, author, duration, music_file_url)]
    returns a song id, [get_song] of that id returns exactly the row
    (title, author, duration, music_file_url): the title and the author
    were strings, and the four columns read back are the four values
    given. *)
Theorem add_song_get_song (t a : pyval) (dur : Z) (ref : string) (d d' : database)
    (song_id : Z) :
  add_song t a dur ref d = Return (d', song_id) ->
  exists t' a',
    t = Some t' /\ a = Some a' /\
    get_song song_id d'
    = Return (Some {| title := t'; author := a'; duration := dur;
                      music_file_url := ref |}).
Proof.
  intros Hadd.
  apply add_song_Return in Hadd as (t' & a' & -> & -> & _ & _ & Hrange & ->).
  exists t', a'. split; [reflexivity|]. split; [reflexivity|].
  apply get_song_Return. unfold int64_min. split; [lia|].
  simpl. apply lookup_insert_eq.
Qed.

Lemma add_song_get_song_witness :
  exists d' song_id,
    add_song (Some "T") (Some "A") 180 "song.mp3" init_db = Return (d', song_id) /\
    exists t' a',
      Some "T" = Some t' /\ Some "A" = Some a' /\
      get_song song_id d'
      = Return (Some {| title := t'; author := a'; duration := 180;
                        music_file_url := "song.mp3" |}).
Proof.
  exists {| songs := {[ 1 := {| title := "T"; author := "A"; duration := 180;
                               music_file_url := "song.mp3" |} ]};
            songs_seq := 1; users := []; users_seq := 0 |}, 1.
  split.
  - vm_compute. reflexivity.
  - apply (add_song_get_song (Some "T") (Some "A") 180 "song.mp3" init_db).
    vm_compute. reflexivity.
Defined.

(** ** AuthService *)

Lemma max_id_ge (l : list user_row) (r : user_row) :
  In r l -> user_id r <= max_id l.
Proof.
  induction l as [|a l IH]; simpl; [tauto|].
  intros [->|Hin]; [lia|]. specialize (IH Hin). lia.
Qed.

Lemma next_user_id_fresh (d : database) :
  select_user_by_id (next_rowid (users_seq d) (max_id (users d))) d = None.
Proof.
  unfold select_user_by_id.
  destruct (List.find _ (users d)) as [r|] eqn:Hfind; [|reflexivity].
  apply find_some in Hfind as [Hin Heq].
  apply max_id_ge in Hin. apply Z.eqb_eq in Heq.
  unfold next_rowid in Heq. lia.
Qed.

(** What a successful [register_user] did to the store. *)
Lemma register_user_true {env : Environment} (salt name pass : string) (d d' : database) :
  register_user salt name pass d = (d', true) ->
  select_user_by_name name d = None /\
  d' = {| songs := songs d;
          songs_seq := songs_seq d;
          users := users d ++ [{| user_id := next_rowid (users_seq d) (max_id (users d));
                                  username := name;
                                  password := generate_password_hash salt pass |}];
          users_seq := next_rowid (users_seq d) (max_id (users d)) |}.
Proof.
  unfold register_user.
  destruct (select_user_by_name name d) eqn:Hsel; intros Hreg.
  - discriminate.
  - injection Hreg as <-. split; reflexivity.
Qed.

Lemma select_registered {env : Environment} (name : string) (d : database) (row : user_row) :
  select_user_by_name name d = None ->
  username row = name ->
  select_user_by_name name
    {| songs := songs d; songs_seq := songs_seq d;
       users := users d ++ [row]; users_seq := user_id row |} = Some row.
Proof.
  unfold select_user_by_name. simpl. intros Hnone Hname.
  apply find_app_fresh; [assumption|].
  rewrite Hname. apply String.eqb_refl.
Qed.

(** A text with no "$" in it is cut off whole by [split_dollar]. *)
Lemma split_dollar_append (a b : string) :
  split_dollar a = None ->
  split_dollar (a +:+ String "$" b) = Some (a, b).
Proof.
  induction a as [|c a IH].
  - intros _. reflexivity.
  - change (String c a +:+ String "$" b) with (String c (a +:+ String "$" b)).
    simpl. destruct (Ascii.eqb c "$"); [discriminate|].
    destruct (split_dollar a) as [[x y]|]; [discriminate|].
    intros _. rewrite (IH eq_refl). reflexivity.
Qed.

(** In [hmac_env], whatever [sha256] and [kdf] are, a stored hash matches
    every password that HMAC prepares to the same key as the password it
    was generated from. *)
Lemma hmac_env_matches (sha256 : string -> string)
    (kdf : string -> string -> string -> string) (salt pass q : string) :
  split_dollar salt = None ->
  hmac_key sha256 (utf8_encode q) = hmac_key sha256 (utf8_encode pass) ->
  @pwhash_matches (hmac_env sha256 kdf)
    (@generate_password_hash (hmac_env sha256 kdf) salt pass) q = true.
Proof.
  intros Hsalt Hkey. simpl.
  change ("" +:+ salt +:+ "$"
          +:+ kdf "scrypt:32768:8:1" salt (hmac_key sha256 (utf8_encode pass)))
    with (salt +:+ String "$" (kdf "scrypt:32768:8:1" salt (hmac_key sha256 (utf8_encode pass)))).
  rewrite (split_dollar_append salt) by assumption.
  rewrite Hkey. apply String.eqb_refl.
Qed.

(** [verify_user] once the row of the name is found. *)
Lemma verify_user_found {env : Environment} (name q : string) (d : database)
    (row : user_row) :
  select_user_by_name name d = Some row ->
  verify_user (Some name) (Some q) d
  = Return (if pwhash_matches (password row) q then Some (user_id row) else None).
Proof.
  intros Hsel. unfold verify_user. rewrite Hsel. reflexivity.
Qed.

(** C2, counterexample. "admin" registers with the password "pw1" and
    then logs in with "pw1" followed by a NUL character, which is another
    password: [verify_user] returns the id of "admin".  This is so for
    every [sha256] and [kdf], because HMAC pads both keys with zero bytes
    to the same 64. *)
Lemma register_then_verify_nul :
  pw1_nul <> pw1 /\
  forall (sha256 : string -> string) (kdf : string -> string -> string -> string),
  exists d',
    @register_user (hmac_env sha256 kdf) "salt" "admin" pw1 init_db = (d', true) /\
    @verify_user (hmac_env sha256 kdf) (Some "admin") (Some pw1) d' = Return (Some 1) /\
    @verify_user (hmac_env sha256 kdf) (Some "admin") (Some pw1_nul) d' = Return (Some 1).
Proof.
  split; [discriminate|].
  intros sha256 kdf.
  set (row := {| user_id := 1; username := "admin";
                 password := @generate_password_hash (hmac_env sha256 kdf) "salt" pw1 |}).
  exists {| songs := ∅; songs_seq := 0; users := [row]; users_seq := 1 |}.
  split; [reflexivity|].
  rewrite !(verify_user_found "admin" _ _ row) by reflexivity.
  change (password row)
    with (@generate_password_hash (hmac_env sha256 kdf) "salt" pw1).
  rewrite !hmac_env_matches by reflexivity.
  split; reflexivity.
Qed.

(** C2, as the code has it. After a successful [register_user(username,
    password)], a row with a key no user had before holds the name;
    [verify_user(username, password)] returns that key; and
    [verify_user(username, q)], for any [q], returns that key when the
    stored hash matches [q] and [None] (invalid credentials) when it does
    not.  Of the hash, only that it matches the password it was generated
    from is asked. *)
Theorem register_then_verify {env : Environment} (salt name pass : string)
    (d d' : database) :
  pwhash_matches (generate_password_hash salt pass) pass = true ->
  register_user salt name pass d = (d', true) ->
  exists uid,
    select_user_by_id uid d = None /\
    users d' = (users d ++ [{| user_id := uid; username := name;
                               password := generate_password_hash salt pass |}])%list /\
    verify_user (Some name) (Some pass) d' = Return (Some uid) /\
    forall q,
      (pwhash_matches (generate_password_hash salt pass) q = false ->
       verify_user (Some name) (Some q) d' = Return None) /\
      (pwhash_matches (generate_password_hash salt pass) q = true ->
       verify_user (Some name) (Some q) d' = Return (Some uid)).
Proof.
  intros Hhash Hreg.
  apply register_user_true in Hreg as [Hnone ->].
  set (uid := next_rowid (users_seq d) (max_id (users d))).
  set (row := {| user_id := uid; username := name;
                 password := generate_password_hash salt pass |}).
  exists uid.
  assert (Hsel : select_user_by_name name
            {| songs := songs d; songs_seq := songs_seq d;
               users := users d ++ [row]; users_seq := uid |} = Some row)
    by (apply (select_registered name d row); [assumption|reflexivity]).
  split; [apply next_user_id_fresh|].
  split; [reflexivity|].
  unfold verify_user. rewrite Hsel. simpl. split.
  - rewrite Hhash. reflexivity.
  - intros q. split; intros ->; reflexivity.
Qed.

Lemma register_then_verify_witness :
  exists d',
    @register_user hmac_demo_env "salt" "admin" pw1 init_db = (d', true) /\
    exists uid,
      select_user_by_id uid init_db = None /\
      users d' = (users init_db
                  ++ [{| user_id := uid; username := "admin";
                         password := @generate_password_hash hmac_demo_env "salt" pw1 |}])%list /\
      @verify_user hmac_demo_env (Some "admin") (Some pw1) d' = Return (Some uid) /\
      forall q,
        (@pwhash_matches hmac_demo_env (@generate_password_hash hmac_demo_env "salt" pw1) q
         = false ->
         @verify_user hmac_demo_env (Some "admin") (Some q) d' = Return None) /\
        (@pwhash_matches hmac_demo_env (@generate_password_hash hmac_demo_env "salt" pw1) q
         = true ->
         @verify_user hmac_demo_env (Some "admin") (Some q) d' = Return (Some uid)).
Proof.
  eexists. split.
  - reflexivity.
  - apply (@register_then_verify hmac_demo_env "salt" "admin" pw1 init_db).
    + vm_compute. reflexivity.
    + reflexivity.
Defined.

(** [register_user] on a name that is taken changes nothing. *)
Lemma register_user_taken {env : Environment} (salt name pass : string) (d : database)
    (row : user_row) :
  select_user_by_name name d = Some row ->
  register_user salt name pass d = (d, false).
Proof.
  unfold register_user. intros ->. reflexivity.
Qed.

(** C5. On a store where the name is not yet registered, registering it
    twice, with any salts and passwords, succeeds the first time and
    fails the second time, and the second call leaves the store as the
    first call left it: the name still carries the hash of the first
    password.  Through the handler, which first asks for both fields to
    be non-empty, the two answers are 201 and then 409. *)
Theorem register_twice {env : Environment} (salt1 salt2 name pass1 pass2 : string)
    (d : database) :
  select_user_by_name name d = None ->
  exists d1 uid,
    register_user salt1 name pass1 d = (d1, true) /\
    register_user salt2 name pass2 d1 = (d1, false) /\
    select_user_by_name name d1
    = Some {| user_id := uid; username := name;
              password := generate_password_hash salt1 pass1 |} /\
    forall w,
      db w = d -> name <> "" -> pass1 <> "" -> pass2 <> "" ->
      register salt1 {| json_username := Some name; json_password := Some pass1 |} w
      = (with_db d1 w, Response 201 (JMessage "User registered successfully")) /\
      register salt2 {| json_username := Some name; json_password := Some pass2 |}
        (with_db d1 w)
      = (with_db d1 w, Response 409 (JError "Username already exists")).
Proof.
  intros Hnone.
  set (uid := next_rowid (users_seq d) (max_id (users d))).
  set (row := {| user_id := uid; username := name;
                 password := generate_password_hash salt1 pass1 |}).
  set (d1 := {| songs := songs d; songs_seq := songs_seq d;
                users := users d ++ [row]; users_seq := uid |}).
  assert (Hfirst : register_user salt1 name pass1 d = (d1, true))
    by (unfold register_user; rewrite Hnone; reflexivity).
  assert (Hsel : select_user_by_name name d1 = Some row)
    by (apply (select_registered name d row); [assumption|reflexivity]).
  assert (Hsecond : register_user salt2 name pass2 d1 = (d1, false))
    by (apply (register_user_taken _ _ _ _ row); assumption).
  exists d1, uid.
  split; [assumption|]. split; [assumption|]. split; [assumption|].
  intros w Hw Hname Hp1 Hp2.
  apply String.eqb_neq in Hname, Hp1, Hp2.
  unfold register. simpl. rewrite Hname, Hp1, Hp2. simpl.
  rewrite Hw, Hfirst, Hsecond. split; reflexivity.
Qed.

Lemma register_twice_witness :
  select_user_by_name "testuser" init_db = None /\
  exists d1 uid,
    @register_user demo_env "s1" "testuser" "password123" init_db = (d1, true) /\
    @register_user demo_env "s2" "testuser" "other" d1 = (d1, false) /\
    select_user_by_name "testuser" d1
    = Some {| user_id := uid; username := "testuser";
              password := @generate_password_hash demo_env "s1" "password123" |} /\
    forall w,
      db w = init_db -> "testuser" <> "" -> "password123" <> "" -> "other" <> "" ->
      @register demo_env "s1"
        {| json_username := Some "testuser"; json_password := Some "password123" |} w
      = (with_db d1 w, Response 201 (JMessage "User registered successfully")) /\
      @register demo_env "s2"
        {| json_username := Some "testuser"; json_password := Some "other" |} (with_db d1 w)
      = (with_db d1 w, Response 409 (JError "Username already exists")).
Proof.
  split.
  - reflexivity.
  - apply (@register_twice demo_env "s1" "s2" "testuser" "password123" "other" init_db).
    reflexivity.
Defined.

(** C6. [verify_user] gives one and the same answer, [None], when the
    name is not in the store and when the name is there but the stored
    hash does not match the password; [login] then answers both with the
    same 401 and the same message, and leaves the session as it was. *)
Theorem verify_user_failures_agree {env : Environment} (name : string) (pass : pyval)
    (d_absent d_wrong : database) (row : user_row) :
  select_user_by_name name d_absent = None ->
  select_user_by_name name d_wrong = Some row ->
  check_password_hash (password row) pass = Return false ->
  verify_user (Some name) pass d_absent = Return None /\
  verify_user (Some name) pass d_wrong = Return None /\
  forall (s : session) (w1 w2 : world),
    db w1 = d_absent -> db w2 = d_wrong ->
    login {| json_username := Some name; json_password := pass |} s w1
    = (s, Response 401 (JError "Invalid username or password")) /\
    login {| json_username := Some name; json_password := pass |} s w2
    = (s, Response 401 (JError "Invalid username or password")).
Proof.
  intros Habsent Hpresent Hcheck.
  assert (H1 : verify_user (Some name) pass d_absent = Return None)
    by (unfold verify_user; rewrite Habsent; reflexivity).
  assert (H2 : verify_user (Some name) pass d_wrong = Return None)
    by (unfold verify_user; rewrite Hpresent, Hcheck; reflexivity).
  split; [assumption|]. split; [assumption|].
  intros s w1 w2 Hw1 Hw2. unfold login. simpl.
  rewrite Hw1, Hw2, H1, H2. split; reflexivity.
Qed.

Lemma verify_user_failures_agree_witness :
  @verify_user demo_env (Some "bob") (Some "guess") init_db = Return None /\
  @verify_user demo_env (Some "bob") (Some "guess") two_users = Return None /\
  forall (s : session) (w1 w2 : world),
    db w1 = init_db -> db w2 = two_users ->
    @login demo_env {| json_username := Some "bob"; json_password := Some "guess" |} s w1
    = (s, Response 401 (JError "Invalid username or password")) /\
    @login demo_env {| json_username := Some "bob"; json_password := Some "guess" |} s w2
    = (s, Response 401 (JError "Invalid username or password")).
Proof.
  apply (@verify_user_failures_agree demo_env "bob" (Some "guess") init_db two_users
           {| user_id := 2; username := "bob"; password := "plain$$pw2" |}).
  - reflexivity.
  - reflexivity.
  - reflexivity.
Defined.

(** ** The authorization gate *)

Lemma upload_song_gate {env : Environment} (s : session) (req : upload_request)
    (w w' : world) (o : outcome) :
  upload_song s req w = (w', o) ->
  admin_session s w \/
  w' = w /\
  (s = None /\ o = unauthenticated \/
   s <> None /\ o = Response 403 (JError "You do not have permission to upload songs")).
Proof.
  unfold upload_song, login_required, admin_session.
  destruct s as [uid|].
  - case_bool_decide as Hname.
    + intros [= <- <-]. right. split; [reflexivity|]. right. split; [discriminate|reflexivity].
    + intros _. left. exists uid. split; [reflexivity|].
      destruct (decide (get_username_by_id uid (db w) = Some "admin")); [assumption|].
      contradiction.
  - intros [= <- <-]. right. split; [reflexivity|]. left. split; reflexivity.
Qed.

Lemma delete_song_gate {env : Environment} (s : session) (song_id : Z)
    (w w' : world) (o : outcome) :
  delete_song s song_id w = (w', o) ->
  admin_session s w \/
  w' = w /\
  (s = None /\ o = unauthenticated \/
   s <> None /\ o = Response 403 (JError "You do not have permission to delete songs")).
Proof.
  unfold delete_song, login_required, admin_session.
  destruct s as [uid|].
  - case_bool_decide as Hname.
    + intros [= <- <-]. right. split; [reflexivity|]. right. split; [discriminate|reflexivity].
    + intros _. left. exists uid. split; [reflexivity|].
      destruct (decide (get_username_by_id uid (db w) = Some "admin")); [assumption|].
      contradiction.
  - intros [= <- <-]. right. split; [reflexivity|]. left. split; reflexivity.
Qed.

(** C1. The gate of every operation.
    - [upload_song] and [delete_song]: with no session the answer is 401,
      with a session whose user is not named "admin" it is 403, in both
      cases the world is untouched; so a 200 comes only from a session
      of "admin".
    - [serve_song] and [get_all_songs]: 401 with no session; with any
      session at all, admin or not, the request goes through to the
      lookup and the song or the list is served.
    - [play_song] never looks at the session: the blob of an existing
      song is streamed to anyone. *)
Theorem access_control {env : Environment} (s : session) (w : world)
    (req : upload_request) (song_id : Z) :
  (s = None ->
     upload_song s req w = (w, unauthenticated) /\
     delete_song s song_id w = (w, unauthenticated)) /\
  (forall uid, s = Some uid -> get_username_by_id uid (db w) <> Some "admin" ->
     upload_song s req w
     = (w, Response 403 (JError "You do not have permission to upload songs")) /\
     delete_song s song_id w
     = (w, Response 403 (JError "You do not have permission to delete songs"))) /\
  (forall w' b, upload_song s req w = (w', Response 200 b) -> admin_session s w) /\
  (forall w' b, delete_song s song_id w = (w', Response 200 b) -> admin_session s w) /\
  (s = None ->
     serve_song s song_id w = (w, unauthenticated) /\
     get_all_songs s w = (w, unauthenticated)) /\
  (forall uid, s = Some uid ->
     serve_song s song_id w
     = (w, match get_song song_id (db w) with
           | Return (Some song) =>
               Response 200 (JSong song_id (title song) (author song)
                               (duration song) (music_file_url song))
           | Return None => abort404
           | Raise e => Unhandled e
           end) /\
     get_all_songs s w = (w, Response 200 (JSongList (get_all_songs_rows (db w))))) /\
  (forall song path data,
     get_song song_id (db w) = Return (Some song) ->
     safe_join SONG_DIRECTORY (music_file_url song) = Some path ->
     fs w !! path = Some (RegularFile data) ->
     play_song song_id w = (w, Response 200 (FileBody data))).
Proof.
  split; [|split; [|split; [|split; [|split; [|split]]]]].
  - intros ->. split; reflexivity.
  - intros uid -> Hname.
    unfold upload_song, delete_song, login_required.
    rewrite bool_decide_eq_true_2 by assumption. split; reflexivity.
  - intros w' b Hup.
    destruct (upload_song_gate _ _ _ _ _ Hup) as [Hadm|[_ [[_ Ho]|[_ Ho]]]];
      [assumption|discriminate|discriminate].
  - intros w' b Hdel.
    destruct (delete_song_gate _ _ _ _ _ Hdel) as [Hadm|[_ [[_ Ho]|[_ Ho]]]];
      [assumption|discriminate|discriminate].
  - intros ->. split; reflexivity.
  - intros uid ->. unfold serve_song, get_all_songs, login_required.
    split; [|reflexivity].
    destruct (get_song song_id (db w)) as [[song|]|e]; reflexivity.
  - intros song path data Hsong Hjoin Hblob.
    unfold play_song, send_from_directory.
    rewrite Hsong, Hjoin, Hblob. reflexivity.
Qed.

(** ** Upload *)

Lemma is_ascii_digit_value (c : ascii) :
  is_ascii_digit c = true -> 0 <= Z.of_nat (nat_of_ascii c) - 48 <= 9.
Proof.
  unfold is_ascii_digit. intros Hc.
  apply andb_prop in Hc as [Hlo Hhi].
  apply Nat.leb_le in Hlo. apply Nat.leb_le in Hhi. lia.
Qed.

Lemma int_acc_nonneg (text : string) (acc : Z) :
  all_decimal text = true -> 0 <= acc -> 0 <= int_acc acc text.
Proof.
  revert acc. induction text as [|c text IH]; simpl; intros acc Hd Hacc.
  - assumption.
  - apply andb_prop in Hd as [Hc Hd].
    apply IH; [assumption|].
    pose proof (is_ascii_digit_value c Hc). lia.
Qed.

(** When [int] returns, the text was made of decimal digits and the value
    is the non-negative integer they write. *)
Lemma int_Return {env : Environment} (text : string) (n : Z) :
  int text = Return n ->
  all_decimal text = true /\ n = int_acc 0 text /\ 0 <= n.
Proof.
  unfold int.
  destruct (String.eqb text "") eqn:Hempty; simpl; [discriminate|].
  destruct (all_decimal text) eqn:Hdec; simpl; [|discriminate].
  destruct (negb (int_max_str_digits =? 0)%nat
            && (int_max_str_digits <? String.length text)%nat); [discriminate|].
  intros [= <-]. split; [reflexivity|]. split; [reflexivity|].
  apply int_acc_nonneg; [assumption|lia].
Qed.

(** A character that [isdigit] accepts and [int] does not. *)
Lemma int_not_decimal {env : Environment} (text : string) :
  all_decimal text = false -> int text = Raise ValueError.
Proof.
  unfold int. intros ->. simpl. rewrite orb_true_r. reflexivity.
Qed.

Lemma append_cons (c : ascii) (s t : string) : String c s +:+ t = String c (s +:+ t).
Proof. reflexivity. Qed.

Lemma contains_dot_append (stem ext : string) :
  contains_dot (stem +:+ "." +:+ ext) = true.
Proof.
  induction stem as [|c stem IH].
  - reflexivity.
  - rewrite append_cons. simpl. rewrite IH. apply orb_true_r.
Qed.

(** [rsplit('.', 1)] cuts at the last dot: what follows it has none. *)
Lemma rsplit_dot_last (name : string) :
  contains_dot name = true ->
  exists stem ext,
    rsplit_dot name = [stem; ext] /\
    name = stem +:+ "." +:+ ext /\
    contains_dot ext = false.
Proof.
  induction name as [|c name IH]; simpl; [discriminate|].
  destruct (contains_dot name) eqn:Hrest.
  - intros _. destruct (IH eq_refl) as (stem & ext & -> & Hname & Hext).
    exists (String c stem), ext. repeat split; [|assumption].
    rewrite Hname at 1. reflexivity.
  - rewrite orb_false_r. intros Hc.
    assert (Hsplit : rsplit_dot name = [name]).
    { clear IH Hc. induction name as [|c' name IH]; simpl in *; [reflexivity|].
      apply orb_false_elim in Hrest as [Hc' Hrest].
      rewrite (IH Hrest), Hc'. reflexivity. }
    rewrite Hsplit, Hc. apply Ascii.eqb_eq in Hc as ->.
    exists "", name. repeat split. assumption.
Qed.

(** A name has one last dot. *)
Lemma last_dot_unique (stem stem' ext ext' : string) :
  contains_dot ext = false -> contains_dot ext' = false ->
  stem +:+ "." +:+ ext = stem' +:+ "." +:+ ext' ->
  ext = ext'.
Proof.
  intros Hext Hext'. revert stem'.
  induction stem as [|c stem IH]; intros [|c' stem'] Heq.
  - change (String "." ext = String "." ext') in Heq.
    injection Heq as Heq. exact Heq.
  - change (String "." ext = String c' (stem' +:+ "." +:+ ext')) in Heq.
    injection Heq as _ Heq.
    rewrite Heq, contains_dot_append in Hext. discriminate.
  - change (String c (stem +:+ "." +:+ ext) = String "." ext') in Heq.
    injection Heq as _ Heq.
    rewrite <- Heq, contains_dot_append in Hext'. discriminate.
  - change (String c (stem +:+ "." +:+ ext) = String c' (stem' +:+ "." +:+ ext')) in Heq.
    injection Heq as _ Heq. apply (IH stem'). exact Heq.
Qed.

(** X9. [allowed_file] accepts exactly the names that have a dot and
    whose text after the last dot, lower-cased, is in
    [ALLOWED_EXTENSIONS]: what comes before the last dot, other dots
    included, plays no part, and neither does the case of the
    extension. *)
Lemma allowed_file_extension {env : Environment} (name : string) :
  allowed_file name = true <->
  exists stem ext,
    name = stem +:+ "." +:+ ext /\ contains_dot ext = false /\
    lower ext ∈ ALLOWED_EXTENSIONS.
Proof.
  unfold allowed_file. split.
  - intros Hok. apply andb_prop in Hok as [Hdot Hin].
    destruct (rsplit_dot_last name Hdot) as (stem & ext & Hsplit & Hname & Hext).
    rewrite Hsplit in Hin. simpl in Hin. apply bool_decide_eq_true_1 in Hin.
    exists stem, ext. auto.
  - intros (stem & ext & Hname & Hext & Hin).
    assert (Hdot : contains_dot name = true)
      by (rewrite Hname; apply contains_dot_append).
    destruct (rsplit_dot_last name Hdot) as (stem' & ext' & Hsplit & Hname' & Hext').
    rewrite Hname in Hname'.
    apply last_dot_unique in Hname' as <-; [|assumption|assumption].
    rewrite Hdot, Hsplit. simpl. apply bool_decide_eq_true_2. assumption.
Qed.

Lemma admin_passes_gate (s : session) (w : world) :
  admin_session s w ->
  exists uid, s = Some uid /\
    bool_decide (get_username_by_id uid (db w) <> Some "admin") = false.
Proof.
  intros (uid & -> & Hname). exists uid. split; [reflexivity|].
  apply bool_decide_eq_false_2. intros Hne. contradiction.
Qed.

(** Once the checks have passed and the duration is read, the blob is
    saved and the row is inserted, in that order. *)
Lemma upload_song_accepted {env : Environment} (s : session) (w : world)
    (file : file_storage) (t a : pyval) (text : string) (n : Z) :
  admin_session s w ->
  isdigit text = true ->
  int text = Return n ->
  file_truthy file && allowed_file (filename file) = true ->
  upload_song s {| files_file := Some file; form_title := t; form_author := a;
                   form_duration := Some text |} w
  = let name := secure_filename (filename file) in
    match file_save (os_path_join SONG_DIRECTORY name) (stream file) (fs w) with
    | Raise e => (w, Unhandled e)
    | Return fs' =>
        match add_song t a n name (db w) with
        | Raise e => (with_fs fs' w, Unhandled e)
        | Return (d', song_id) =>
            ({| db := d'; fs := fs' |},
             Response 200 (JUploaded "Song uploaded successfully" song_id t a n name))
        end
    end.
Proof.
  intros Hadmin Hdigit Hint Hfile.
  destruct (admin_passes_gate s w Hadmin) as (uid & -> & Hgate).
  unfold upload_song, login_required. rewrite Hgate. simpl.
  assert (Hne : negb (text =? "")%string = true)
    by (unfold isdigit in Hdigit; apply andb_prop in Hdigit as [Hne _]; exact Hne).
  rewrite Hne, Hdigit, Hint, Hfile. reflexivity.
Qed.

(** The checks of an upload by the administrator, in the order the code
    makes them; each failure leaves the world as it was.
    (a) no file part: 400 "No file part";
    (b) a duration that is missing or does not pass [isdigit]: 400
        "Invalid duration provided";
    (c) a duration that passes [isdigit] and that [int] does not read:
        the exception of [int] leaves the handler;
    (d) a duration that is read, and a file with no name or with an
        extension outside the allow-list: 400 "Invalid file format". *)
Lemma upload_song_checks {env : Environment} (s : session) (w : world) :
  admin_session s w ->
  (forall t a dur,
     upload_song s {| files_file := None; form_title := t; form_author := a;
                      form_duration := dur |} w
     = (w, Response 400 (JError "No file part"))) /\
  (forall file t a dur,
     (dur = None \/ exists text, dur = Some text /\ isdigit text = false) ->
     upload_song s {| files_file := Some file; form_title := t; form_author := a;
                      form_duration := dur |} w
     = (w, Response 400 (JError "Invalid duration provided"))) /\
  (forall file t a text e,
     isdigit text = true ->
     int text = Raise e ->
     upload_song s {| files_file := Some file; form_title := t; form_author := a;
                      form_duration := Some text |} w
     = (w, Unhandled e)) /\
  (forall file t a text n,
     isdigit text = true ->
     int text = Return n ->
     file_truthy file && allowed_file (filename file) = false ->
     upload_song s {| files_file := Some file; form_title := t; form_author := a;
                      form_duration := Some text |} w
     = (w, Response 400 (JError "Invalid file format"))).
Proof.
  intros Hadmin.
  destruct (admin_passes_gate s w Hadmin) as (uid & -> & Hgate).
  unfold upload_song, login_required. rewrite Hgate. simpl.
  assert (Hne : forall text, isdigit text = true -> negb (text =? "")%string = true)
    by (intros text Hd; unfold isdigit in Hd; apply andb_prop in Hd as [Hne _]; exact Hne).
  split; [|split; [|split]].
  - reflexivity.
  - intros file t a dur [->|(text & -> & Hdigit)]; [reflexivity|].
    rewrite Hdigit. simpl. rewrite orb_true_r. reflexivity.
  - intros file t a text e Hdigit Hint.
    rewrite (Hne text Hdigit), Hdigit, Hint. reflexivity.
  - intros file t a text n Hdigit Hint Hfile.
    rewrite (Hne text Hdigit), Hdigit, Hint, Hfile. reflexivity.
Qed.

(** C3, at the failing request. The administrator uploads "song.mp3" with
    the duration "²" (the one character U+00B2).  It is not the writing
    of an integer, yet it passes [isdigit], so that the answer is not
    400 "Invalid duration provided": [int] raises [ValueError], which
    nothing catches.  No row and no blob is written.  The same request
    with the duration "abc" is answered 400. *)
Lemma upload_song_superscript_duration_faults :
  isdigit superscript_two = true /\
  @int demo_env superscript_two = Raise ValueError /\
  @upload_song demo_env (Some 1)
    {| files_file := Some {| filename := "song.mp3"; stream := [] |};
       form_title := Some "T"; form_author := Some "A";
       form_duration := Some superscript_two |}
    {| db := two_users; fs := ∅ |}
  = ({| db := two_users; fs := ∅ |}, Unhandled ValueError) /\
  @upload_song demo_env (Some 1)
    {| files_file := Some {| filename := "song.mp3"; stream := [] |};
       form_title := Some "T"; form_author := Some "A";
       form_duration := Some "abc" |}
    {| db := two_users; fs := ∅ |}
  = ({| db := two_users; fs := ∅ |}, Response 400 (JError "Invalid duration provided")).
Proof. repeat split; vm_compute; reflexivity. Qed.

(** ** Delete *)

(** [delete_song] once the gate is passed and the row is found. *)
Lemma delete_song_existing {env : Environment} (s : session) (w : world) (song_id : Z)
    (song : song_row) :
  admin_session s w ->
  get_song song_id (db w) = Return (Some song) ->
  delete_song s song_id w
  = match (if os_path_exists (blob_path song) (fs w)
           then os_remove (blob_path song) (fs w)
           else Return (fs w)) with
    | Raise e => (w, Unhandled e)
    | Return fs' =>
        ({| db := {| songs := delete song_id (songs (db w));
                     songs_seq := songs_seq (db w);
                     users := users (db w);
                     users_seq := users_seq (db w) |};
            fs := fs' |},
         Response 200 (JMessage "Song deleted successfully"))
    end.
Proof.
  intros Hadmin Hrow. apply get_song_Return in Hrow as [Hrange Hrow].
  destruct (admin_passes_gate s w Hadmin) as (uid & -> & Hgate).
  unfold delete_song, login_required, blob_path.
  rewrite Hgate, (bind_int64_in_range _ Hrange), Hrow. reflexivity.
Qed.

(** [delete_song] once the gate is passed and no row is found, or the id
    cannot be bound. *)
Lemma delete_song_missing {env : Environment} (s : session) (w : world) (song_id : Z) :
  admin_session s w ->
  (get_song song_id (db w) = Return None ->
   delete_song s song_id w = (w, Response 404 (JError "Song not found"))) /\
  (forall e, get_song song_id (db w) = Raise e ->
   delete_song s song_id w = (w, Unhandled e)).
Proof.
  intros Hadmin.
  destruct (admin_passes_gate s w Hadmin) as (uid & -> & Hgate).
  unfold delete_song, login_required, get_song. rewrite Hgate.
  destruct (bind_int64 song_id) as [k|e'] eqn:Hbind; simpl.
  - split; [|discriminate]. intros [= ->]. reflexivity.
  - split; [discriminate|]. intros e [= ->]. reflexivity.
Qed.

(** X16. For the administrator, deleting a song that is in the catalog
    and whose blob is a regular file, or is already gone, answers 200,
    removes the row and leaves no blob at the path of the song. *)
Lemma delete_song_succeeds {env : Environment} (s : session) (w : world) (song_id : Z)
    (song : song_row) :
  admin_session s w ->
  get_song song_id (db w) = Return (Some song) ->
  fs w !! blob_path song <> Some Directory ->
  exists w',
    delete_song s song_id w = (w', Response 200 (JMessage "Song deleted successfully")) /\
    songs (db w') = delete song_id (songs (db w)) /\
    fs w' = delete (blob_path song) (fs w).
Proof.
  intros Hadmin Hrow Hblob.
  rewrite (delete_song_existing s w song_id song Hadmin Hrow).
  unfold os_path_exists, os_remove.
  destruct (fs w !! blob_path song) as [[data|]|] eqn:Hnode.
  - rewrite bool_decide_eq_true_2 by eauto.
    eexists. repeat split.
  - contradiction.
  - rewrite bool_decide_eq_false_2 by (intros [x Hx]; discriminate).
    eexists. repeat split. simpl.
    symmetry. apply delete_id. assumption.
Qed.

(** Every way [delete_song] can end. *)
Lemma delete_song_cases {env : Environment} (s : session) (song_id : Z)
    (w w' : world) (o : outcome) :
  delete_song s song_id w = (w', o) ->
  (w' = w /\ forall b, o <> Response 200 b) \/
  (exists song,
     admin_session s w /\
     get_song song_id (db w) = Return (Some song) /\
     fs w !! blob_path song <> Some Directory /\
     w' = {| db := {| songs := delete song_id (songs (db w));
                      songs_seq := songs_seq (db w);
                      users := users (db w);
                      users_seq := users_seq (db w) |};
             fs := delete (blob_path song) (fs w) |} /\
     o = Response 200 (JMessage "Song deleted successfully")).
Proof.
  intros Hdel.
  destruct (delete_song_gate s song_id w w' o Hdel) as [Hadmin|[-> [[_ ->]|[_ ->]]]];
    [|left; split; [reflexivity|discriminate]..].
  destruct (get_song song_id (db w)) as [[song|]|e] eqn:Hrow.
  - rewrite (delete_song_existing s w song_id song Hadmin Hrow) in Hdel.
    unfold os_path_exists, os_remove in Hdel.
    destruct (fs w !! blob_path song) as [[data|]|] eqn:Hnode.
    + rewrite bool_decide_eq_true_2 in Hdel by eauto.
      injection Hdel as <- <-. right. exists song.
      rewrite Hnode. repeat split; try assumption. discriminate.
    + rewrite bool_decide_eq_true_2 in Hdel by eauto.
      injection Hdel as <- <-. left. split; [reflexivity|discriminate].
    + rewrite bool_decide_eq_false_2 in Hdel by (intros [x Hx]; discriminate).
      injection Hdel as <- <-. right. exists song.
      rewrite Hnode, (delete_id (fs w) (blob_path song) Hnode).
      repeat split; try assumption. discriminate.
  - destruct (delete_song_missing s w song_id Hadmin) as [Hnone _].
    rewrite (Hnone Hrow) in Hdel.
    injection Hdel as <- <-. left. split; [reflexivity|discriminate].
  - destruct (delete_song_missing s w song_id Hadmin) as [_ Hraise].
    rewrite (Hraise e Hrow) in Hdel.
    injection Hdel as <- <-. left. split; [reflexivity|discriminate].
Qed.




Example delete_song_one_song :
  @delete_song demo_env (Some 1) 1 one_song
  = ({| db := {| songs := ∅; songs_seq := 1; users := users two_users; users_seq := 2 |};
        fs := ∅ |},
     Response 200 (JMessage "Song deleted successfully")).
Proof. vm_compute. reflexivity. Qed.

(** C7, counterexample. In [one_song_blocked] the administrator deletes
    song 1, whose blob path holds a directory: [os.remove] raises, the
    exception leaves the handler, and the row is still in the catalog; no
    response, warning or other, is built. *)
Lemma delete_song_blocked_aborts :
  admin_session (Some 1) one_song_blocked /\
  get_song 1 (db one_song_blocked) = Return (Some song_T) /\
  os_path_exists (@blob_path demo_env song_T) (fs one_song_blocked) = true /\
  os_remove (@blob_path demo_env song_T) (fs one_song_blocked) = Raise OSError /\
  @delete_song demo_env (Some 1) 1 one_song_blocked = (one_song_blocked, Unhandled OSError) /\
  get_song 1 (db (fst (@delete_song demo_env (Some 1) 1 one_song_blocked)))
  = Return (Some song_T) /\
  forall status b,
    snd (@delete_song demo_env (Some 1) 1 one_song_blocked) <> Response status b.
Proof.
  split; [exists 1; split; reflexivity|].
  split; [reflexivity|]. split; [reflexivity|]. split; [reflexivity|].
  split; [vm_compute; reflexivity|].
  split.
  - vm_compute. reflexivity.
  - intros status b. vm_compute. discriminate.
Qed.

(** C7, as the code has it. For a delete by the administrator of a song
    that is in the catalog:
    - when the blob path does not exist, the row is deleted, the blobs
      are left as they are and the answer is 200;
    - when removing the blob raises, the exception leaves the handler
      before the row is deleted: the world (row and blobs) is unchanged
      and no response is built. *)
Theorem delete_song_blob_failure {env : Environment} (s : session) (w : world)
    (song_id : Z) (song : song_row) :
  admin_session s w ->
  get_song song_id (db w) = Return (Some song) ->
  (os_path_exists (blob_path song) (fs w) = false ->
   delete_song s song_id w
   = ({| db := {| songs := delete song_id (songs (db w));
                  songs_seq := songs_seq (db w);
                  users := users (db w);
                  users_seq := users_seq (db w) |};
         fs := fs w |},
      Response 200 (JMessage "Song deleted successfully"))) /\
  (forall e,
     os_path_exists (blob_path song) (fs w) = true ->
     os_remove (blob_path song) (fs w) = Raise e ->
     delete_song s song_id w = (w, Unhandled e) /\
     get_song song_id (db w) = Return (Some song)).
Proof.
  intros Hadmin Hrow.
  rewrite (delete_song_existing s w song_id song Hadmin Hrow). split.
  - intros ->. reflexivity.
  - intros e -> ->. split; [reflexivity|exact Hrow].
Qed.

Lemma delete_song_blob_failure_witness :
  (os_path_exists (@blob_path demo_env song_T) (fs one_song_blocked) = false ->
   @delete_song demo_env (Some 1) 1 one_song_blocked
   = ({| db := {| songs := delete 1 (songs (db one_song_blocked));
                  songs_seq := songs_seq (db one_song_blocked);
                  users := users (db one_song_blocked);
                  users_seq := users_seq (db one_song_blocked) |};
         fs := fs one_song_blocked |},
      Response 200 (JMessage "Song deleted successfully"))) /\
  (forall e,
     os_path_exists (@blob_path demo_env song_T) (fs one_song_blocked) = true ->
     os_remove (@blob_path demo_env song_T) (fs one_song_blocked) = Raise e ->
     @delete_song demo_env (Some 1) 1 one_song_blocked = (one_song_blocked, Unhandled e) /\
     get_song 1 (db one_song_blocked) = Return (Some song_T)).
Proof.
  apply (@delete_song_blob_failure demo_env (Some 1) one_song_blocked 1 song_T).
  - exists 1. split; reflexivity.
  - reflexivity.
Defined.

(** ** Exceptions that leave a handler *)

(** An accepted upload with no title: the blob is written, the INSERT
    then violates NOT NULL, and [upload_song] has nothing that catches
    the [IntegrityError]. *)
Lemma upload_song_missing_title {env : Environment} (s : session) (w : world)
    (file : file_storage) (a : pyval) (text : string) (n : Z)
    (fs' : gmap string node) :
  admin_session s w ->
  isdigit text = true ->
  int text = Return n ->
  file_truthy file && allowed_file (filename file) = true ->
  n <= int64_max ->
  file_save (os_path_join SONG_DIRECTORY (secure_filename (filename file)))
    (stream file) (fs w) = Return fs' ->
  upload_song s {| files_file := Some file; form_title := None; form_author := a;
                   form_duration := Some text |} w
  = (with_fs fs' w, Unhandled (IntegrityError "NOT NULL constraint failed: songs.title")).
Proof.
  intros Hadmin Hdigit Hint Hfile Hmax Hsave.
  rewrite (upload_song_accepted s w file None a text n Hadmin Hdigit Hint Hfile).
  simpl. rewrite Hsave. unfold add_song.
  apply int_Return in Hint as (_ & _ & Hnonneg).
  assert (Hlo : (int64_min <=? n) = true)
    by (apply Z.leb_le; unfold int64_min; lia).
  assert (Hhi : (n <=? int64_max) = true) by (apply Z.leb_le; assumption).
  rewrite Hlo, Hhi. reflexivity.
Qed.

(** C9, at the failing request. The administrator uploads "song.mp3" with
    duration "180" and author "A" but no title: the handler ends with an
    unhandled [IntegrityError] instead of a response, and the blob it
    saved on the way stays behind without a row. *)
Lemma upload_song_without_title_faults :
  @upload_song demo_env (Some 1)
    {| files_file := Some {| filename := "song.mp3"; stream := [] |};
       form_title := None; form_author := Some "A"; form_duration := Some "180" |}
    {| db := two_users; fs := ∅ |}
  = ({| db := two_users; fs := {[ "songs/song.mp3" := RegularFile [] ]} |},
     Unhandled (IntegrityError "NOT NULL constraint failed: songs.title")).
Proof. vm_compute. reflexivity. Qed.

(** The same request with its title is answered 200. *)
Example upload_song_with_title :
  @upload_song demo_env (Some 1) song_upload {| db := two_users; fs := ∅ |}
  = ({| db := {| songs := {[ 1 := song_T ]}; songs_seq := 1;
                 users := users two_users; users_seq := 2 |};
        fs := {[ "songs/song.mp3" := RegularFile [] ]} |},
     Response 200 (JUploaded "Song uploaded successfully" 1 (Some "T") (Some "A") 180
                     "song.mp3")).
Proof. vm_compute. reflexivity. Qed.

(** ** Login *)

(** X6. A login with no username, or with a name nobody registered, is
    answered 401 whatever the password field holds (a string, or nothing
    at all), and leaves the session as it was. *)
Lemma login_unknown_name {env : Environment} (name pass : pyval) (s : session) (w : world) :
  (forall n, name = Some n -> select_user_by_name n (db w) = None) ->
  login {| json_username := name; json_password := pass |} s w
  = (s, Response 401 (JError "Invalid username or password")).
Proof.
  intros Hname. unfold login, verify_user. simpl.
  destruct name as [n|]; [rewrite (Hname n eq_refl)|]; reflexivity.
Qed.

(** A login that names a registered user and has no password raises in
    [check_password_hash]; [login] does not catch it. *)
Lemma login_without_password {env : Environment} (name : string) (row : user_row)
    (s : session) (w : world) :
  select_user_by_name name (db w) = Some row ->
  login {| json_username := Some name; json_password := None |} s w
  = (s, Unhandled AttributeError).
Proof.
  intros Hrow. unfold login, verify_user. simpl. rewrite Hrow. reflexivity.
Qed.

(** C10, at the failing request. "bob" is registered. A login as "bob"
    with a wrong password is answered 401; a login as "bob" with no
    password field is not: the handler ends with an unhandled
    [AttributeError].  A login as an unregistered name with no password
    field is answered 401, so the two differ also in what they tell about
    the name. *)
Lemma login_without_password_faults :
  @login demo_env {| json_username := Some "bob"; json_password := Some "guess" |}
    None {| db := two_users; fs := ∅ |}
  = (None, Response 401 (JError "Invalid username or password")) /\
  @login demo_env {| json_username := Some "bob"; json_password := None |}
    None {| db := two_users; fs := ∅ |}
  = (None, Unhandled AttributeError) /\
  @login demo_env {| json_username := Some "carol"; json_password := None |}
    None {| db := two_users; fs := ∅ |}
  = (None, Response 401 (JError "Invalid username or password")).
Proof. repeat split; vm_compute; reflexivity. Qed.

(** The integer is read from the digits, however many: one past the
    largest 64-bit integer passes the checks, the blob is saved, and the
    [sqlite3] module then refuses to bind the value. *)
Example upload_song_duration_overflow :
  @upload_song demo_env (Some 1)
    {| files_file := Some {| filename := "song.mp3"; stream := [] |};
       form_title := Some "T"; form_author := Some "A";
       form_duration := Some "9223372036854775808" |}
    {| db := two_users; fs := ∅ |}
  = ({| db := two_users; fs := {[ "songs/song.mp3" := RegularFile [] ]} |},
     Unhandled OverflowError).
Proof. vm_compute. reflexivity. Qed.

(** ** The scenarios of [test_app.py] *)

Example test_register_user :
  let data := {| json_username := Some "testuser"; json_password := Some "password123" |} in
  exists w1,
    @register demo_env "salt1" data empty_world
    = (w1, Response 201 (JMessage "User registered successfully")) /\
    @register demo_env "salt2" data w1
    = (w1, Response 409 (JError "Username already exists")).
Proof. eexists. split; vm_compute; reflexivity. Qed.

Example test_login_user :
  let w := with_db (fst (@register_user demo_env "salt" "testuser" "password123" init_db))
             empty_world in
  @login demo_env {| json_username := Some "testuser"; json_password := Some "password123" |}
    None w
  = (Some 1, Response 200 (JMessage "Login successful")) /\
  @login demo_env {| json_username := Some "testuser"; json_password := Some "wrongpassword" |}
    None w
  = (None, Response 401 (JError "Invalid username or password")).
Proof. split; vm_compute; reflexivity. Qed.

Example test_upload_song_as_admin :
  let w := with_db (fst (@register_user demo_env "salt" "admin" "adminpassword" init_db))
             empty_world in
  let data := {| files_file := None; form_title := Some "Test Song";
                 form_author := Some "Test Author"; form_duration := Some "180" |} in
  let file := {| filename := "test.mp3"; stream := [] |} in
  @upload_song demo_env (Some 1) data w = (w, Response 400 (JError "No file part")) /\
  snd (@upload_song demo_env (Some 1)
         {| files_file := Some file; form_title := form_title data;
            form_author := form_author data; form_duration := form_duration data |} w)
  = Response 200 (JUploaded "Song uploaded successfully" 1 (Some "Test Song")
                    (Some "Test Author") 180 "test.mp3").
Proof. split; vm_compute; reflexivity. Qed.

(** The scenarios of the specification: a non-admin upload is refused, a
    duration that is not a number is refused before anything is written,
    and an uploaded song is played back byte for byte, session or not. *)
Example upload_by_non_admin :
  @upload_song demo_env (Some 2) song_upload {| db := two_users; fs := ∅ |}
  = ({| db := two_users; fs := ∅ |},
     Response 403 (JError "You do not have permission to upload songs")).
Proof. vm_compute. reflexivity. Qed.

Example upload_duration_abc :
  @upload_song demo_env (Some 1)
    {| files_file := files_file song_upload; form_title := Some "T";
       form_author := Some "A"; form_duration := Some "abc" |}
    {| db := two_users; fs := ∅ |}
  = ({| db := two_users; fs := ∅ |}, Response 400 (JError "Invalid duration provided")).
Proof. vm_compute. reflexivity. Qed.

Example upload_then_play :
  let data := [Byte.x49; Byte.x44; Byte.x33] in
  let w := fst (@upload_song demo_env (Some 1)
                  {| files_file := Some {| filename := "song.mp3"; stream := data |};
                     form_title := Some "T"; form_author := Some "A";
                     form_duration := Some "180" |}
                  {| db := two_users; fs := ∅ |}) in
  @play_song demo_env 1 w = (w, Response 200 (FileBody data)).
Proof. vm_compute. reflexivity. Qed.

(** [two_users] is what two registrations on the empty store produce. *)
Example two_users_registered :
  fst (@register_user demo_env "salt2" "bob" "pw2"
         (fst (@register_user demo_env "salt1" "admin" "pw1" init_db)))
  = two_users.
Proof. vm_compute. reflexivity. Qed.

(** * Further properties of the services and the handlers *)

(** ** The users table under its constraints *)

Lemma max_id_nonneg (l : list user_row) : 0 <= max_id l.
Proof. induction l as [|a l IH]; simpl; lia. Qed.

Lemma max_key_nonneg {A} (m : gmap Z A) : 0 <= max_key m.
Proof.
  unfold max_key.
  apply (map_fold_weak_ind (fun acc (_ : gmap Z A) => 0 <= acc)); intros; lia.
Qed.

Lemma find_name_Some (name : string) (l : list user_row) (row : user_row) :
  List.find (fun r => String.eqb (username r) name) l = Some row ->
  row ∈ l /\ username row = name.
Proof.
  induction l as [|a l IH]; simpl; [discriminate|].
  destruct (String.eqb (username a) name) eqn:Ha.
  - intros [= <-]. apply String.eqb_eq in Ha. split; [left|assumption].
  - intros Hfind. destruct (IH Hfind) as [Hin Hname]. split; [right|]; assumption.
Qed.

Lemma find_name_None (name : string) (l : list user_row) :
  List.find (fun r => String.eqb (username r) name) l = None ->
  name ∉ username <$> l.
Proof.
  induction l as [|a l IH]; simpl.
  - intros _ Hin. inversion Hin.
  - destruct (String.eqb (username a) name) eqn:Ha; [discriminate|].
    intros Hfind Hin. apply String.eqb_neq in Ha.
    apply elem_of_cons in Hin as [Heq|Hin]; [congruence|].
    exact (IH Hfind Hin).
Qed.

Lemma find_id_Some (uid : Z) (l : list user_row) (row : user_row) :
  List.find (fun r => user_id r =? uid) l = Some row ->
  row ∈ l /\ user_id row = uid.
Proof.
  induction l as [|a l IH]; simpl; [discriminate|].
  destruct (user_id a =? uid) eqn:Ha.
  - intros [= <-]. apply Z.eqb_eq in Ha. split; [left|assumption].
  - intros Hfind. destruct (IH Hfind) as [Hin Hid]. split; [right|]; assumption.
Qed.

(** Under a PRIMARY KEY the row found by key is the row that has it. *)
Lemma find_id_unique (l : list user_row) (row : user_row) :
  NoDup (user_id <$> l) -> row ∈ l ->
  List.find (fun r => user_id r =? user_id row) l = Some row.
Proof.
  induction l as [|a l IH]; simpl; intros Hnd Hin.
  - inversion Hin.
  - apply NoDup_cons in Hnd as [Hfresh Hnd].
    apply elem_of_cons in Hin as [->|Hin].
    + rewrite Z.eqb_refl. reflexivity.
    + destruct (user_id a =? user_id row) eqn:Ha.
      * apply Z.eqb_eq in Ha. exfalso. apply Hfresh. rewrite Ha.
        apply list_elem_of_fmap. exists row. split; [reflexivity|assumption].
      * apply IH; assumption.
Qed.

Lemma find_other_name_app (name other : string) (l : list user_row) (row : user_row) :
  username row = name -> other <> name ->
  List.find (fun r => String.eqb (username r) other) (l ++ [row])
  = List.find (fun r => String.eqb (username r) other) l.
Proof.
  intros Hrow Hne. induction l as [|a l IH]; simpl.
  - rewrite Hrow. apply not_eq_sym in Hne. apply String.eqb_neq in Hne.
    rewrite Hne. reflexivity.
  - destruct (String.eqb (username a) other); [reflexivity|exact IH].
Qed.

Lemma users_ok_append (d : database) (name hash : string) :
  users_ok d ->
  select_user_by_name name d = None ->
  users_ok {| songs := songs d;
              songs_seq := songs_seq d;
              users := users d ++ [{| user_id := next_rowid (users_seq d) (max_id (users d));
                                      username := name; password := hash |}];
              users_seq := next_rowid (users_seq d) (max_id (users d)) |}.
Proof.
  intros (Hnames & Hids & Hrange) Hnone.
  pose proof (max_id_nonneg (users d)) as Hmax.
  unfold users_ok, next_rowid. simpl. rewrite !fmap_app. simpl.
  split; [|split].
  - apply NoDup_app. split; [assumption|]. split; [|apply NoDup_singleton].
    intros x Hx Hname. apply list_elem_of_singleton in Hname as ->.
    exact (find_name_None _ _ Hnone Hx).
  - apply NoDup_app. split; [assumption|]. split; [|apply NoDup_singleton].
    intros x Hx Hid. apply list_elem_of_singleton in Hid as ->.
    apply list_elem_of_fmap in Hx as (r & Hr & Hin).
    apply list_elem_of_In, max_id_ge in Hin. lia.
  - apply Forall_app. split.
    + eapply Forall_impl; [exact Hrange|]. simpl. intros r Hr. lia.
    + constructor; [simpl; lia|constructor].
Qed.

(** X1. The constraints of the users table are an invariant of
    registration: if the names are unique and the keys are unique,
    positive and covered by the sequence before [register_user] (or the
    [register] handler) runs, they are so afterwards, whether the
    registration succeeded or not. *)
Theorem register_keeps_users_ok {env : Environment} (salt : string) (d : database) :
  users_ok d ->
  (forall name pass, users_ok (fst (register_user salt name pass d))) /\
  (forall data w, db w = d -> users_ok (db (fst (register salt data w)))).
Proof.
  intros Hok.
  assert (Hservice : forall name pass, users_ok (fst (register_user salt name pass d))).
  { intros name pass. unfold register_user.
    destruct (select_user_by_name name d) eqn:Hsel; simpl; [assumption|].
    apply users_ok_append; assumption. }
  split; [exact Hservice|].
  intros data w Hw. unfold register.
  destruct (negb (truthy (json_username data)) || negb (truthy (json_password data)));
    [simpl; rewrite Hw; assumption|].
  destruct (json_username data) as [n|]; [|simpl; rewrite Hw; assumption].
  destruct (json_password data) as [p|]; [|simpl; rewrite Hw; assumption].
  specialize (Hservice n p). rewrite Hw.
  destruct (register_user salt n p d) as [d' [|]]; simpl in *;
    [assumption|rewrite Hw; assumption].
Qed.

Lemma register_keeps_users_ok_witness :
  (forall name pass, users_ok (fst (@register_user demo_env "salt" name pass two_users))) /\
  (forall data w, db w = two_users -> users_ok (db (fst (@register demo_env "salt" data w)))).
Proof.
  apply (@register_keeps_users_ok demo_env "salt" two_users).
  unfold users_ok, two_users. simpl. split; [|split].
  - apply NoDup_cons. split; [|apply NoDup_singleton].
    intros Hin. apply list_elem_of_singleton in Hin. discriminate.
  - apply NoDup_cons. split; [|apply NoDup_singleton].
    intros Hin. apply list_elem_of_singleton in Hin. discriminate.
  - repeat (constructor; [simpl; lia|]). constructor.
Defined.

Lemma two_users_ok : users_ok two_users.
Proof.
  unfold users_ok, two_users. simpl. split; [|split].
  - apply NoDup_cons. split; [|apply NoDup_singleton].
    intros Hin. apply list_elem_of_singleton in Hin. discriminate.
  - apply NoDup_cons. split; [|apply NoDup_singleton].
    intros Hin. apply list_elem_of_singleton in Hin. discriminate.
  - repeat (constructor; [simpl; lia|]). constructor.
Qed.

Lemma find_id_app_l (uid : Z) (l : list user_row) (row new : user_row) :
  List.find (fun r => user_id r =? uid) l = Some row ->
  List.find (fun r => user_id r =? uid) (l ++ [new]) = Some row.
Proof.
  induction l as [|a l IH]; simpl; [discriminate|].
  destruct (user_id a =? uid); [trivial|exact IH].
Qed.

(** X2. A registration, successful or not, leaves everybody else as they
    were: [verify_user] answers the same for every other name and every
    password, a key that resolved to a name still resolves to it, and the
    songs table is not touched. *)
Theorem register_user_frame {env : Environment} (salt name pass : string) (d : database) :
  (forall other pw, other <> name ->
     verify_user (Some other) pw (fst (register_user salt name pass d))
     = verify_user (Some other) pw d) /\
  (forall uid n, get_username_by_id uid d = Some n ->
     get_username_by_id uid (fst (register_user salt name pass d)) = Some n) /\
  songs (fst (register_user salt name pass d)) = songs d /\
  songs_seq (fst (register_user salt name pass d)) = songs_seq d.
Proof.
  unfold register_user.
  destruct (select_user_by_name name d) eqn:Hsel; simpl.
  - repeat split; trivial.
  - split; [|split; [|split; reflexivity]].
    + intros other pw Hne. unfold verify_user, select_user_by_name. simpl.
      rewrite (find_other_name_app name other); [reflexivity|reflexivity|assumption].
    + intros uid n. unfold get_username_by_id, select_user_by_id. simpl.
      destruct (List.find _ (users d)) as [row|] eqn:Hfind; [|discriminate].
      intros Hn. rewrite (find_id_app_l uid (users d) row _ Hfind). exact Hn.
Qed.

(** X3. Under the constraints of the users table, the key that
    [verify_user] returns for a name is a key that [get_username_by_id]
    resolves back to that name: whoever logs in as [name] is treated as
    [name] by the authorization check. *)
Theorem verify_user_resolves {env : Environment} (name : string) (pw : pyval)
    (d : database) (uid : Z) :
  users_ok d ->
  verify_user (Some name) pw d = Return (Some uid) ->
  get_username_by_id uid d = Some name.
Proof.
  intros (_ & Hids & _). unfold verify_user, select_user_by_name.
  destruct (List.find _ (users d)) as [row|] eqn:Hfind; [|discriminate].
  apply find_name_Some in Hfind as [Hin Hname].
  destruct (check_password_hash (password row) pw) as [[|]|]; simpl; try discriminate.
  intros [= <-]. unfold get_username_by_id, select_user_by_id.
  rewrite (find_id_unique (users d) row Hids Hin). congruence.
Qed.

Lemma verify_user_resolves_witness :
  @verify_user demo_env (Some "bob") (Some "pw2") two_users = Return (Some 2) /\
  get_username_by_id 2 two_users = Some "bob".
Proof.
  split; [reflexivity|].
  apply (@verify_user_resolves demo_env "bob" (Some "pw2") two_users 2).
  - exact two_users_ok.
  - reflexivity.
Defined.

(** ** Sessions *)

(** X4. Register, then log in. For a non-empty name that is not taken and
    a non-empty password, [register] answers 201 and changes no blob, and
    a [login] with the same two fields then answers 200 and puts in the
    session a key that [get_username_by_id] resolves to the name; so the
    first to register the name "admin" holds the administrator's session.
    The hash is only asked to match the password it was made from. *)
Theorem register_then_login {env : Environment} (salt name pass : string)
    (s : session) (w : world) :
  name <> "" -> pass <> "" ->
  select_user_by_name name (db w) = None ->
  pwhash_matches (generate_password_hash salt pass) pass = true ->
  let data := {| json_username := Some name; json_password := Some pass |} in
  exists w' uid,
    register salt data w = (w', Response 201 (JMessage "User registered successfully")) /\
    fs w' = fs w /\
    login data s w' = (Some uid, Response 200 (JMessage "Login successful")) /\
    get_username_by_id uid (db w') = Some name /\
    (name = "admin" -> admin_session (Some uid) w').
Proof.
  intros Hname Hpass Hfree Hhash data.
  set (uid := next_rowid (users_seq (db w)) (max_id (users (db w)))).
  set (row := {| user_id := uid; username := name;
                 password := generate_password_hash salt pass |}).
  set (d' := {| songs := songs (db w); songs_seq := songs_seq (db w);
                users := users (db w) ++ [row]; users_seq := uid |}).
  assert (Hreg : register_user salt name pass (db w) = (d', true))
    by (unfold register_user; rewrite Hfree; reflexivity).
  assert (Hsel : select_user_by_name name d' = Some row)
    by (apply (select_registered name (db w) row); [assumption|reflexivity]).
  assert (Hwho : get_username_by_id uid d' = Some name).
  { unfold get_username_by_id, select_user_by_id. simpl.
    rewrite (find_app_fresh _ (users (db w)) row).
    - reflexivity.
    - exact (next_user_id_fresh (db w)).
    - simpl. apply Z.eqb_refl. }
  assert (Hpos : (uid =? 0) = false).
  { apply Z.eqb_neq. pose proof (max_id_nonneg (users (db w))).
    unfold uid, next_rowid. lia. }
  exists (with_db d' w), uid.
  apply String.eqb_neq in Hname, Hpass.
  split; [|split; [reflexivity|split; [|split]]].
  - unfold register, data. simpl. rewrite Hname, Hpass. simpl.
    rewrite Hreg. reflexivity.
  - unfold login, verify_user, data. simpl. rewrite Hsel. simpl.
    rewrite Hhash. simpl. rewrite Hpos. reflexivity.
  - exact Hwho.
  - intros ->. exists uid. split; [reflexivity|exact Hwho].
Qed.

Lemma register_then_login_witness :
  exists w' uid,
    @register demo_env "salt" {| json_username := Some "admin"; json_password := Some "pw1" |}
      empty_world
    = (w', Response 201 (JMessage "User registered successfully")) /\
    fs w' = fs empty_world /\
    @login demo_env {| json_username := Some "admin"; json_password := Some "pw1" |} None w'
    = (Some uid, Response 200 (JMessage "Login successful")) /\
    get_username_by_id uid (db w') = Some "admin" /\
    ("admin" = "admin" -> admin_session (Some uid) w').
Proof.
  apply (@register_then_login demo_env "salt" "admin" "pw1" None empty_world).
  - discriminate.
  - discriminate.
  - reflexivity.
  - reflexivity.
Defined.

(** X5. [login] puts a key in the session exactly when [verify_user]
    returned a key other than 0, and then it is that key, with a 200; in
    every other case the session is left as it was and the answer is not
    a 200. *)
Theorem login_sets_session {env : Environment} (data : credentials) (s : session)
    (w : world) :
  (forall uid,
     verify_user (json_username data) (json_password data) (db w) = Return (Some uid) ->
     uid <> 0 ->
     login data s w = (Some uid, Response 200 (JMessage "Login successful"))) /\
  ((forall uid,
      verify_user (json_username data) (json_password data) (db w) = Return (Some uid) ->
      uid = 0) ->
   fst (login data s w) = s /\
   forall status b, snd (login data s w) = Response status b -> status = 401).
Proof.
  unfold login. split.
  - intros uid -> Hne. apply Z.eqb_neq in Hne. rewrite Hne. reflexivity.
  - intros Hnone.
    destruct (verify_user _ _ _) as [[uid|]|e]; simpl.
    + rewrite (Hnone uid eq_refl). simpl. split; [reflexivity|].
      intros status b [= <- _]. reflexivity.
    + split; [reflexivity|]. intros status b [= <- _]. reflexivity.
    + split; [reflexivity|]. intros status b Heq. discriminate.
Qed.

Lemma login_unknown_name_witness :
  @login demo_env {| json_username := Some "carol"; json_password := None |}
    (Some 7) {| db := two_users; fs := ∅ |}
  = (Some 7, Response 401 (JError "Invalid username or password")).
Proof.
  apply (@login_unknown_name demo_env (Some "carol") None (Some 7)
           {| db := two_users; fs := ∅ |}).
  intros n [= <-]. reflexivity.
Defined.

(** X7. [logout] answers 401 to a request without a session and 200 to
    one with a session; either way the session is empty afterwards, so
    that every handler behind [login_required] then answers 401 and
    leaves the world alone. *)
Theorem logout_ends_session {env : Environment} (s : session) (w : world)
    (req : upload_request) (song_id : Z) :
  snd (logout s)
  = match s with
    | None => unauthenticated
    | Some _ => Response 200 (JMessage "Logged out successfully")
    end /\
  fst (logout s) = None /\
  upload_song (fst (logout s)) req w = (w, unauthenticated) /\
  delete_song (fst (logout s)) song_id w = (w, unauthenticated) /\
  serve_song (fst (logout s)) song_id w = (w, unauthenticated) /\
  get_all_songs (fst (logout s)) w = (w, unauthenticated) /\
  logout (fst (logout s)) = (None, unauthenticated).
Proof.
  destruct s as [uid|]; simpl; repeat split.
Qed.

(** X8. [register] answers 400 and changes nothing when the username or
    the password is missing or empty, whatever the other field and the
    store hold.  And whenever it answers, the status is 400, 409 or 201:
    with 400 and 409 the world is as it was, and with 201 no song and no
    blob has changed. *)
Theorem register_validation {env : Environment} (salt : string) (data : credentials)
    (w : world) :
  (truthy (json_username data) = false \/ truthy (json_password data) = false ->
   register salt data w
   = (w, Response 400 (JError "Username and password are required"))) /\
  (forall w' status b,
     register salt data w = (w', Response status b) ->
     (status = 400 /\ w' = w) \/
     (status = 409 /\ w' = w) \/
     (status = 201 /\ fs w' = fs w /\ songs (db w') = songs (db w) /\
      songs_seq (db w') = songs_seq (db w))).
Proof.
  unfold register. split.
  - intros [-> | ->]; simpl; [reflexivity|].
    rewrite orb_true_r. reflexivity.
  - intros w' status b.
    destruct (negb (truthy (json_username data)) || negb (truthy (json_password data)));
      [intros [= <- <- _]; left; split; reflexivity|].
    destruct (json_username data) as [n|];
      [|intros [= <- <- _]; left; split; reflexivity].
    destruct (json_password data) as [p|];
      [|intros [= <- <- _]; left; split; reflexivity].
    destruct (register_user salt n p (db w)) as [d' [|]] eqn:Hreg.
    + apply register_user_true in Hreg as [_ ->].
      intros [= <- <- _]. right. right. repeat split.
    + intros [= <- <- _]. right. left. split; reflexivity.
Qed.

(** ** The catalog *)

(** X10. [add_song] returns exactly when the title and the author are
    strings, the duration fits in 64 bits and the keys of the table have
    not reached 2^63-1; otherwise it raises (an [OverflowError] for the
    duration, an [IntegrityError] for a missing text, an
    [OperationalError] for a full table). *)
Theorem add_song_returns_iff (t a : pyval) (dur : Z) (ref : string) (d : database) :
  (exists d' song_id, add_song t a dur ref d = Return (d', song_id))
  <-> (t <> None /\ a <> None /\ int64_min <= dur <= int64_max /\
       Z.max (songs_seq d) (max_key (songs d)) < int64_max).
Proof.
  unfold add_song. split.
  - intros (d' & song_id & Hadd).
    destruct ((int64_min <=? dur) && (dur <=? int64_max)) eqn:Hrange; [|discriminate].
    apply andb_prop in Hrange as [Hlo Hhi].
    apply Z.leb_le in Hlo. apply Z.leb_le in Hhi. simpl in Hadd.
    destruct t; [|discriminate]. destruct a; [|discriminate].
    destruct (int64_max <=? Z.max (songs_seq d) (max_key (songs d))) eqn:Hfull;
      [discriminate|].
    apply Z.leb_gt in Hfull.
    repeat split; try discriminate; assumption.
  - intros (Ht & Ha & [Hlo Hhi] & Hfull).
    apply Z.leb_le in Hlo. apply Z.leb_le in Hhi. apply Z.leb_gt in Hfull.
    rewrite Hlo, Hhi. simpl.
    destruct t; [|contradiction]. destruct a; [|contradiction].
    rewrite Hfull. eexists _, _. reflexivity.
Qed.

(** Every way [upload_song] can end. *)
Lemma upload_song_cases {env : Environment} (s : session) (req : upload_request)
    (w w' : world) (o : outcome) :
  upload_song s req w = (w', o) ->
  (w' = w /\ forall b, o <> Response 200 b) \/
  (exists file text n,
     admin_session s w /\
     files_file req = Some file /\ form_duration req = Some text /\
     isdigit text = true /\ int text = Return n /\
     file_truthy file && allowed_file (filename file) = true /\
     let name := secure_filename (filename file) in
     let path := os_path_join SONG_DIRECTORY name in
     ((exists e, file_save path (stream file) (fs w) = Raise e /\
                 w' = w /\ o = Unhandled e) \/
      (exists e, add_song (form_title req) (form_author req) n name (db w)
                 = Raise e /\
                 fs w !! path <> Some Directory /\
                 w' = with_fs (<[path := RegularFile (stream file)]> (fs w)) w /\
                 o = Unhandled e) \/
      (exists d' song_id,
         add_song (form_title req) (form_author req) n name (db w)
         = Return (d', song_id) /\
         fs w !! path <> Some Directory /\
         w' = {| db := d'; fs := <[path := RegularFile (stream file)]> (fs w) |} /\
         o = Response 200 (JUploaded "Song uploaded successfully" song_id
                             (form_title req) (form_author req) n name)))).
Proof.
  intros Hup.
  destruct (upload_song_gate s req w w' o Hup) as [Hadmin|[-> [[_ ->]|[_ ->]]]];
    [|left; split; [reflexivity|discriminate]..].
  destruct (admin_passes_gate s w Hadmin) as (uid & -> & Hgate).
  unfold upload_song, login_required in Hup. rewrite Hgate in Hup.
  destruct (files_file req) as [file|] eqn:Hfile;
    [|injection Hup as <- <-; left; split; [reflexivity|discriminate]].
  destruct (form_duration req) as [text|] eqn:Hdur;
    [|injection Hup as <- <-; left; split; [reflexivity|discriminate]].
  destruct (negb (truthy (Some text)) || negb (isdigit text)) eqn:Hbad;
    [injection Hup as <- <-; left; split; [reflexivity|discriminate]|].
  apply orb_false_elim in Hbad as [_ Hdigit]. apply negb_false_iff in Hdigit.
  destruct (int text) as [n|e] eqn:Hint;
    [|injection Hup as <- <-; left; split; [reflexivity|discriminate]].
  destruct (file_truthy file && allowed_file (filename file)) eqn:Hallowed;
    [|injection Hup as <- <-; left; split; [reflexivity|discriminate]].
  right. exists file, text, n.
  do 6 (split; [first [reflexivity|assumption]|]). simpl.
  unfold file_save in *.
  destruct (fs w !! os_path_join SONG_DIRECTORY (secure_filename (filename file)))
    as [[data|]|] eqn:Hnode.
  - right. destruct (add_song _ _ _ _ _) as [[d' song_id]|e] eqn:Hadd;
      injection Hup as <- <-.
    + right. exists d', song_id. repeat split; discriminate.
    + left. exists e. repeat split; discriminate.
  - injection Hup as <- <-. left. exists OSError. repeat split.
  - right. destruct (add_song _ _ _ _ _) as [[d' song_id]|e] eqn:Hadd;
      injection Hup as <- <-.
    + right. exists d', song_id. repeat split; discriminate.
    + left. exists e. repeat split; discriminate.
Qed.

(** X13. What a 200 from [upload_song] guarantees. The session is the
    administrator's; the file name passed [allowed_file]; the duration
    field is a string of digits that [int] reads, and its value, between
    0 and 2^63-1, is the duration stored; the row is new (its key held no
    song before), it carries the title and the author of the form and,
    as its file reference, the sanitized file name; and the blob
    directory is the old one with the uploaded bytes written at that
    name. *)
Theorem upload_song_ok {env : Environment} (s : session) (req : upload_request)
    (w w' : world) (b : body) :
  upload_song s req w = (w', Response 200 b) ->
  exists file text n song_id t a,
    admin_session s w /\
    files_file req = Some file /\ allowed_file (filename file) = true /\
    form_duration req = Some text /\ isdigit text = true /\
    int text = Return n /\ 0 <= n <= int64_max /\
    form_title req = Some t /\ form_author req = Some a /\
    b = JUploaded "Song uploaded successfully" song_id (Some t) (Some a) n
          (secure_filename (filename file)) /\
    get_song song_id (db w) = Return None /\
    get_song song_id (db w')
    = Return (Some {| title := t; author := a; duration := n;
                      music_file_url := secure_filename (filename file) |}) /\
    fs w' = <[os_path_join SONG_DIRECTORY (secure_filename (filename file))
              := RegularFile (stream file)]> (fs w).
Proof.
  intros Hup.
  destruct (upload_song_cases s req w w' _ Hup)
    as [[_ Hne]|(file & text & n & Hadmin & Hfile & Hdur & Hdigit & Hint
                 & Hallowed & Hrest)]; [exfalso; exact (Hne b eq_refl)|].
  simpl in Hrest.
  destruct Hrest as [(e & _ & _ & Ho)|[(e & _ & _ & _ & Ho)|(d' & song_id & Hadd & _ & -> & Ho)]];
    [discriminate|discriminate|].
  injection Ho as ->.
  apply add_song_Return in Hadd as (t & a & Ht & Ha & [_ Hmax] & Hid & Hrange & ->).
  apply andb_prop in Hallowed as [_ Hallowed].
  pose proof (int_Return text n Hint) as (_ & _ & Hnonneg).
  assert (Hin : int64_min <= song_id <= int64_max) by (unfold int64_min; lia).
  exists file, text, n, song_id, t, a.
  rewrite Ht, Ha. repeat split; try assumption.
  - apply get_song_Return. split; [assumption|]. rewrite Hid. apply next_rowid_fresh.
  - apply get_song_Return. split; [assumption|]. simpl. apply lookup_insert_eq.
Qed.

Lemma upload_song_ok_witness :
  exists file text n song_id t a,
    admin_session (Some 1) {| db := two_users; fs := ∅ |} /\
    files_file song_upload = Some file /\ @allowed_file demo_env (filename file) = true /\
    form_duration song_upload = Some text /\ isdigit text = true /\
    @int demo_env text = Return n /\ 0 <= n <= int64_max /\
    form_title song_upload = Some t /\ form_author song_upload = Some a /\
    JUploaded "Song uploaded successfully" 1 (Some "T") (Some "A") 180 "song.mp3"
    = JUploaded "Song uploaded successfully" song_id (Some t) (Some a) n
        (@secure_filename demo_env (filename file)) /\
    get_song song_id two_users = Return None /\
    get_song song_id (db one_song)
    = Return (Some {| title := t; author := a; duration := n;
                      music_file_url := @secure_filename demo_env (filename file) |}) /\
    fs one_song
    = <[os_path_join (@SONG_DIRECTORY demo_env) (@secure_filename demo_env (filename file))
        := RegularFile (stream file)]> ∅.
Proof.
  apply (@upload_song_ok demo_env (Some 1) song_upload {| db := two_users; fs := ∅ |}
           one_song).
  vm_compute. reflexivity.
Defined.

(** X14. What [upload_song] never does, however it ends (response or
    exception): it does not touch the users table; every song that was in
    the catalog is still there, unchanged; and every path of the blob
    directory holds what it held, except the one path named after the
    uploaded file. *)
Theorem upload_song_frame {env : Environment} (s : session) (req : upload_request)
    (w : world) :
  users (db (fst (upload_song s req w))) = users (db w) /\
  users_seq (db (fst (upload_song s req w))) = users_seq (db w) /\
  (forall k row, get_song k (db w) = Return (Some row) ->
     get_song k (db (fst (upload_song s req w))) = Return (Some row)) /\
  (forall path,
     fs (fst (upload_song s req w)) !! path = fs w !! path \/
     exists file, files_file req = Some file /\
       path = os_path_join SONG_DIRECTORY (secure_filename (filename file))).
Proof.
  destruct (upload_song s req w) as [w' o] eqn:Hup. simpl.
  destruct (upload_song_cases s req w w' o Hup)
    as [[-> _]|(file & text & n & _ & Hfile & _ & _ & _ & _ & Hrest)].
  { repeat split; auto. }
  simpl in Hrest.
  assert (Hblob : forall path,
    <[os_path_join SONG_DIRECTORY (secure_filename (filename file))
      := RegularFile (stream file)]> (fs w) !! path = fs w !! path \/
    exists file', Some file = Some file' /\
      path = os_path_join SONG_DIRECTORY (secure_filename (filename file'))).
  { intros path.
    destruct (decide (os_path_join SONG_DIRECTORY (secure_filename (filename file)) = path))
      as [<-|Hne].
    - right. exists file. split; reflexivity.
    - left. apply lookup_insert_ne. assumption. }
  rewrite Hfile.
  destruct Hrest as [(e & _ & -> & _)|[(e & _ & _ & -> & _)|(d' & song_id & Hadd & _ & -> & _)]];
    simpl.
  - repeat split; auto.
  - repeat split; auto.
  - split; [|split; [|split; [|exact Hblob]]].
    + apply add_song_Return in Hadd as (t & a & _ & _ & _ & _ & _ & ->). reflexivity.
    + apply add_song_Return in Hadd as (t & a & _ & _ & _ & _ & _ & ->). reflexivity.
    + intros k row Hk. exact (add_song_keeps_rows _ _ _ _ _ _ _ _ _ Hadd Hk).
Qed.

(** X11. The range of the song keys is an invariant of the two handlers
    that write to the catalog: if every key is positive and at most the
    recorded sequence before [upload_song] or [delete_song] runs, it is
    so afterwards, however the handler ends. *)
Theorem handlers_keep_songs_ok {env : Environment} (w : world) :
  songs_ok (db w) ->
  (forall s req, songs_ok (db (fst (upload_song s req w)))) /\
  (forall s song_id, songs_ok (db (fst (delete_song s song_id w)))).
Proof.
  intros Hok. split.
  - intros s req. destruct (upload_song s req w) as [w' o] eqn:Hup. simpl.
    destruct (upload_song_cases s req w w' o Hup)
      as [[-> _]|(file & text & n & _ & _ & _ & _ & _ & _ & Hrest)]; [assumption|].
    simpl in Hrest.
    destruct Hrest as [(e & _ & -> & _)|[(e & _ & _ & -> & _)|(d' & k' & Hadd & _ & -> & _)]];
      try assumption.
    apply add_song_Return in Hadd as (t & a & _ & _ & _ & Hid & _ & ->). simpl.
    pose proof (max_key_nonneg (songs (db w))) as Hmax.
    intros k row. simpl. rewrite lookup_insert.
    destruct (decide (k' = k)) as [<-|Hne].
    + intros _. unfold next_rowid in Hid. lia.
    + intros Hk. apply Hok in Hk. unfold next_rowid in Hid. lia.
  - intros s song_id. destruct (delete_song s song_id w) as [w' o] eqn:Hdel. simpl.
    destruct (delete_song_cases s song_id w w' o Hdel)
      as [[-> _]|(song & _ & _ & _ & -> & _)]; [assumption|].
    intros k row. simpl. rewrite lookup_delete.
    destruct (decide (song_id = k)); [discriminate|]. apply Hok.
Qed.

Lemma one_song_ok : songs_ok (db one_song).
Proof.
  intros k row. simpl. rewrite lookup_singleton.
  destruct (decide (1 = k)) as [<-|]; [intros _; lia|discriminate].
Qed.

Lemma handlers_keep_songs_ok_witness :
  (forall s req, songs_ok (db (fst (@upload_song demo_env s req one_song)))) /\
  (forall s song_id, songs_ok (db (fst (@delete_song demo_env s song_id one_song)))).
Proof.
  apply (@handlers_keep_songs_ok demo_env one_song).
  exact one_song_ok.
Defined.

(** X12. A song key is not handed out twice. In a catalog whose keys are
    covered by the sequence, when [delete_song] has removed a song (200)
    and a later [upload_song] succeeds, the key of the new song is larger
    than the key that was deleted. *)
Theorem song_id_not_reused {env : Environment} (s s' : session) (song_id : Z)
    (req : upload_request) (w w1 w2 : world) (b1 b2 : body) :
  songs_ok (db w) ->
  delete_song s song_id w = (w1, Response 200 b1) ->
  upload_song s' req w1 = (w2, Response 200 b2) ->
  exists new_id message t a dur url,
    b2 = JUploaded message new_id t a dur url /\
    song_id < new_id /\
    get_song song_id (db w2) = Return None /\
    get_song new_id (db w2) <> Return None.
Proof.
  intros Hok Hdel Hup.
  destruct (delete_song_cases s song_id w w1 _ Hdel)
    as [[_ Hne]|(song & _ & Hrow & _ & -> & _)]; [exfalso; exact (Hne b1 eq_refl)|].
  apply get_song_Return in Hrow as [Hrange Hrow].
  apply Hok in Hrow.
  destruct (upload_song_cases s' req _ w2 _ Hup)
    as [[_ Hne]|(file & text & n & _ & _ & _ & _ & _ & _ & Hrest)];
    [exfalso; exact (Hne b2 eq_refl)|].
  simpl in Hrest.
  destruct Hrest as [(e & _ & _ & Ho)|[(e & _ & _ & _ & Ho)|(d' & k' & Hadd & _ & -> & Ho)]];
    [discriminate|discriminate|].
  injection Ho as ->.
  apply add_song_Return in Hadd as (t & a & _ & _ & _ & Hid & Hnew & ->). simpl in *.
  assert (Hlt : song_id < k') by (unfold next_rowid in Hid; lia).
  eexists k', _, _, _, _, _. split; [reflexivity|]. split; [exact Hlt|].
  split.
  - apply get_song_Return. split; [assumption|]. simpl.
    rewrite lookup_insert_ne by lia. apply lookup_delete_eq.
  - intros Hnone. apply get_song_Return in Hnone as [_ Hnone]. simpl in Hnone.
    rewrite lookup_insert_eq in Hnone. discriminate.
Qed.

Lemma song_id_not_reused_witness :
  exists new_id message t a dur url,
    JUploaded "Song uploaded successfully" 2 (Some "T") (Some "A") 180 "song.mp3"
    = JUploaded message new_id t a dur url /\
    1 < new_id /\
    get_song 1 (db (fst (@upload_song demo_env (Some 1) song_upload
                           (fst (@delete_song demo_env (Some 1) 1 one_song)))))
    = Return None /\
    get_song new_id (db (fst (@upload_song demo_env (Some 1) song_upload
                                (fst (@delete_song demo_env (Some 1) 1 one_song)))))
    <> Return None.
Proof.
  apply (@song_id_not_reused demo_env (Some 1) (Some 1) 1 song_upload one_song
           (fst (@delete_song demo_env (Some 1) 1 one_song))
           (fst (@upload_song demo_env (Some 1) song_upload
                   (fst (@delete_song demo_env (Some 1) 1 one_song))))
           (JMessage "Song deleted successfully")).
  - exact one_song_ok.
  - vm_compute. reflexivity.
  - vm_compute. reflexivity.
Defined.

Lemma delete_song_succeeds_witness :
  exists w',
    @delete_song demo_env (Some 1) 1 one_song
    = (w', Response 200 (JMessage "Song deleted successfully")) /\
    songs (db w') = delete 1 (songs (db one_song)) /\
    fs w' = delete (@blob_path demo_env song_T) (fs one_song).
Proof.
  apply (@delete_song_succeeds demo_env (Some 1) one_song 1 song_T).
  - exists 1. split; reflexivity.
  - reflexivity.
  - vm_compute. discriminate.
Defined.

(** X15. What [delete_song] never does, however it ends: it does not
    touch the users table or the recorded sequence; it adds no song and
    changes none; it removes no song but the one asked for; and it leaves
    every blob in place except the one the deleted row refers to. *)
Theorem delete_song_frame {env : Environment} (s : session) (song_id : Z) (w : world) :
  users (db (fst (delete_song s song_id w))) = users (db w) /\
  users_seq (db (fst (delete_song s song_id w))) = users_seq (db w) /\
  songs_seq (db (fst (delete_song s song_id w))) = songs_seq (db w) /\
  (forall k, k <> song_id ->
     get_song k (db (fst (delete_song s song_id w))) = get_song k (db w)) /\
  (forall k row, get_song k (db (fst (delete_song s song_id w))) = Return (Some row) ->
     get_song k (db w) = Return (Some row)) /\
  (forall path,
     fs (fst (delete_song s song_id w)) !! path = fs w !! path \/
     exists song, get_song song_id (db w) = Return (Some song) /\ path = blob_path song).
Proof.
  destruct (delete_song s song_id w) as [w' o] eqn:Hdel. simpl.
  destruct (delete_song_cases s song_id w w' o Hdel)
    as [[-> _]|(song & _ & Hrow & _ & -> & _)].
  { repeat split; auto. }
  simpl.
  split; [reflexivity|]. split; [reflexivity|]. split; [reflexivity|].
  split; [|split].
  - intros k Hne. unfold get_song. simpl.
    destruct (bind_int64 k) as [k'|e] eqn:Hbind; simpl; [|reflexivity].
    apply bind_int64_Return in Hbind as [-> _].
    rewrite lookup_delete_ne by congruence. reflexivity.
  - intros k row Hk. apply get_song_Return in Hk as [Hrange Hk]. simpl in Hk.
    apply lookup_delete_Some in Hk as [_ Hk].
    apply get_song_Return. split; assumption.
  - intros path. destruct (decide (blob_path song = path)) as [<-|Hne].
    + right. exists song. split; [assumption|reflexivity].
    + left. apply lookup_delete_ne. assumption.
Qed.

(** ** Reading back *)

(** X17. Upload, then read back. After a 200 from [upload_song] that
    reports the key [song_id], [serve_song] answers any session with the
    record of the form (title, author, the duration as an integer, the
    sanitized file name); and, when [safe_join] lets that name through
    to the path the blob was saved at, [play_song] streams the uploaded
    bytes unchanged. *)
Theorem upload_then_read {env : Environment} (s : session) (req : upload_request)
    (w w' : world) (message : string) (song_id : Z) (t a : pyval) (dur : Z)
    (url : string) :
  upload_song s req w
  = (w', Response 200 (JUploaded message song_id t a dur url)) ->
  exists t' a' file,
    t = Some t' /\ a = Some a' /\ files_file req = Some file /\
    (forall uid,
       serve_song (Some uid) song_id w'
       = (w', Response 200 (JSong song_id t' a' dur url))) /\
    (safe_join SONG_DIRECTORY url = Some (os_path_join SONG_DIRECTORY url) ->
     play_song song_id w' = (w', Response 200 (FileBody (stream file)))).
Proof.
  intros Hup.
  destruct (upload_song_cases s req w w' _ Hup)
    as [[_ Hne]|(file & text & n & _ & Hfile & _ & _ & _ & _ & Hrest)];
    [exfalso; exact (Hne _ eq_refl)|].
  simpl in Hrest.
  destruct Hrest as [(e & _ & _ & Ho)|[(e & _ & _ & _ & Ho)|(d' & k' & Hadd & _ & -> & Ho)]];
    [discriminate|discriminate|].
  injection Ho as -> -> -> -> -> ->.
  apply add_song_Return in Hadd as (t' & a' & Ht & Ha & _ & _ & Hrange & ->).
  assert (Hget : get_song k'
            {| songs := <[k' := {| title := t'; author := a'; duration := n;
                                   music_file_url := secure_filename (filename file) |}]>
                          (songs (db w));
               songs_seq := k'; users := users (db w); users_seq := users_seq (db w) |}
            = Return (Some {| title := t'; author := a'; duration := n;
                              music_file_url := secure_filename (filename file) |})).
  { apply get_song_Return. split; [unfold int64_min; lia|]. simpl. apply lookup_insert_eq. }
  exists t', a', file. rewrite Ht, Ha.
  split; [reflexivity|]. split; [reflexivity|]. split; [assumption|]. split.
  - intros uid. unfold serve_song, login_required. simpl.
    rewrite Hget. reflexivity.
  - intros Hjoin. unfold play_song, send_from_directory. simpl.
    rewrite Hget. simpl. rewrite Hjoin. simpl.
    rewrite lookup_insert_eq. reflexivity.
Qed.

Lemma upload_then_read_witness :
  exists t' a' file,
    Some "T" = Some t' /\ Some "A" = Some a' /\ files_file song_upload = Some file /\
    (forall uid,
       serve_song (Some uid) 1 one_song
       = (one_song, Response 200 (JSong 1 t' a' 180 "song.mp3"))) /\
    (@safe_join demo_env (@SONG_DIRECTORY demo_env) "song.mp3"
     = Some (os_path_join (@SONG_DIRECTORY demo_env) "song.mp3") ->
     @play_song demo_env 1 one_song = (one_song, Response 200 (FileBody (stream file)))).
Proof.
  apply (@upload_then_read demo_env (Some 1) song_upload {| db := two_users; fs := ∅ |}
           one_song "Song uploaded successfully" 1 (Some "T") (Some "A") 180 "song.mp3").
  vm_compute. reflexivity.
Defined.

(** X18. Two songs, one file name. When an upload succeeds under a
    sanitized name that a song already in the catalog refers to, the old
    row stays as it is, the blob it refers to now holds the new bytes,
    and (when [safe_join] lets the name through) playing the old song
    streams the newly uploaded file. *)
Theorem upload_overwrites_shared_blob {env : Environment} (s : session)
    (req : upload_request) (w w' : world) (b : body) (file : file_storage)
    (k : Z) (old : song_row) :
  upload_song s req w = (w', Response 200 b) ->
  files_file req = Some file ->
  get_song k (db w) = Return (Some old) ->
  music_file_url old = secure_filename (filename file) ->
  get_song k (db w') = Return (Some old) /\
  fs w' !! blob_path old = Some (RegularFile (stream file)) /\
  (safe_join SONG_DIRECTORY (music_file_url old) = Some (blob_path old) ->
   play_song k w' = (w', Response 200 (FileBody (stream file)))).
Proof.
  intros Hup Hfile Hold Hurl.
  destruct (upload_song_cases s req w w' _ Hup)
    as [[_ Hne]|(file' & text & n & _ & Hfile' & _ & _ & _ & _ & Hrest)];
    [exfalso; exact (Hne b eq_refl)|].
  rewrite Hfile in Hfile'. injection Hfile' as <-.
  simpl in Hrest.
  destruct Hrest as [(e & _ & _ & Ho)|[(e & _ & _ & _ & Ho)|(d' & k' & Hadd & _ & -> & Ho)]];
    [discriminate|discriminate|].
  assert (Hkept : get_song k d' = Return (Some old))
    by (exact (add_song_keeps_rows _ _ _ _ _ _ _ _ _ Hadd Hold)).
  assert (Hblob : <[os_path_join SONG_DIRECTORY (secure_filename (filename file))
                    := RegularFile (stream file)]> (fs w) !! blob_path old
                  = Some (RegularFile (stream file)))
    by (unfold blob_path; rewrite Hurl; apply lookup_insert_eq).
  simpl. split; [exact Hkept|]. split; [exact Hblob|].
  intros Hjoin. unfold play_song, send_from_directory. simpl.
  rewrite Hkept, Hjoin. simpl. rewrite Hblob. reflexivity.
Qed.

Lemma upload_overwrites_shared_blob_witness :
  let file := {| filename := "song.mp3"; stream := [Byte.x01] |} in
  let req := {| files_file := Some file; form_title := Some "T2";
                form_author := Some "A2"; form_duration := Some "60" |} in
  let w' := fst (@upload_song demo_env (Some 1) req one_song) in
  get_song 1 (db w') = Return (Some song_T) /\
  fs w' !! @blob_path demo_env song_T = Some (RegularFile [Byte.x01]) /\
  (@safe_join demo_env (@SONG_DIRECTORY demo_env) (music_file_url song_T)
   = Some (@blob_path demo_env song_T) ->
   @play_song demo_env 1 w' = (w', Response 200 (FileBody [Byte.x01]))).
Proof.
  intros file req w'.
  apply (@upload_overwrites_shared_blob demo_env (Some 1) req one_song w'
           (JUploaded "Song uploaded successfully" 2 (Some "T2") (Some "A2") 60 "song.mp3")
           file 1 song_T).
  - vm_compute. reflexivity.
  - reflexivity.
  - reflexivity.
  - reflexivity.
Defined.

(** X19. The list that [get_all_songs] serves is the catalog: it holds a
    pair (key, row) exactly when the key fits in 64 bits and [get_song]
    of the key returns the row (the keys of a table all fit), no key
    occurs twice in it, and each [add_song] that returns makes it one
    entry longer. *)
Theorem get_all_songs_is_catalog (d : database) :
  (forall song_id row,
     (song_id, row) ∈ get_all_songs_rows d /\ int64_min <= song_id <= int64_max
     <-> get_song song_id d = Return (Some row)) /\
  NoDup (get_all_songs_rows d).*1 /\
  (forall t a dur ref d' song_id,
     add_song t a dur ref d = Return (d', song_id) ->
     length (get_all_songs_rows d') = S (length (get_all_songs_rows d))).
Proof.
  unfold get_all_songs_rows. split; [|split].
  - intros song_id row. rewrite merge_sort_Permutation, elem_of_map_to_list.
    rewrite get_song_Return. tauto.
  - rewrite merge_sort_Permutation. apply NoDup_fst_map_to_list.
  - intros t a dur ref d' song_id Hadd.
    apply add_song_Return in Hadd as (t' & a' & _ & _ & _ & -> & _ & ->). simpl.
    rewrite !merge_sort_Permutation, !length_map_to_list.
    apply map_size_insert_None, next_rowid_fresh.
Qed.

(** The list is in the order of the keys. *)
Lemma get_all_songs_rows_sorted (d : database) :
  Sorted rowid_le (get_all_songs_rows d).
Proof. unfold get_all_songs_rows. apply Sorted_merge_sort. apply _. Qed.

Example get_all_songs_rows_order :
  (get_all_songs_rows
     {| songs := {[ 3 := song_T; 1 := song_T; 12 := song_T; 2 := song_T ]};
        songs_seq := 12; users := []; users_seq := 0 |}).*1
  = [1; 2; 3; 12].
Proof. vm_compute. reflexivity. Qed.

(** X20. [play_song] only reads: it returns the world it was given. For
    an id that fits in 64 bits it answers 404 when the id has no row,
    when [safe_join] rejects the file reference of the row, and when the
    path it gets holds no blob or holds a directory; in the one
    remaining case it answers 200 with the bytes of the blob.  For an id
    that does not fit, the [OverflowError] of [get_song] leaves the
    handler. *)
Theorem play_song_outcomes {env : Environment} (song_id : Z) (w : world) :
  fst (play_song song_id w) = w /\
  (get_song song_id (db w) = Return None -> snd (play_song song_id w) = abort404) /\
  (forall song,
     get_song song_id (db w) = Return (Some song) ->
     safe_join SONG_DIRECTORY (music_file_url song) = None ->
     snd (play_song song_id w) = abort404) /\
  (forall song path,
     get_song song_id (db w) = Return (Some song) ->
     safe_join SONG_DIRECTORY (music_file_url song) = Some path ->
     snd (play_song song_id w)
     = match fs w !! path with
       | Some (RegularFile data) => Response 200 (FileBody data)
       | Some Directory | None => abort404
       end) /\
  (get_song song_id (db w) = Return None <->
   int64_min <= song_id <= int64_max /\ songs (db w) !! song_id = None) /\
  (~ int64_min <= song_id <= int64_max ->
   snd (play_song song_id w) = Unhandled OverflowError).
Proof.
  unfold play_song, send_from_directory.
  split; [|split; [|split; [|split; [|split]]]].
  - destruct (get_song song_id (db w)) as [[song|]|e]; reflexivity.
  - intros ->. reflexivity.
  - intros song -> ->. reflexivity.
  - intros song path -> ->. simpl.
    destruct (fs w !! path) as [[data|]|]; reflexivity.
  - apply get_song_Return.
  - intros Hout. unfold get_song, bind_int64.
    destruct ((int64_min <=? song_id) && (song_id <=? int64_max)) eqn:Hrange;
      [|reflexivity].
    apply andb_prop in Hrange as [Hlo Hhi].
    apply Z.leb_le in Hlo. apply Z.leb_le in Hhi. exfalso. apply Hout. lia.
Qed.

(** X21. A blob shared by two rows goes with the first of them. When
    [delete_song] has removed a song (200) and another song of the
    catalog refers to the same file name, that other row is still served
    by [serve_song], but no blob is left at its path, so that [play_song]
    answers it with 404 (when [safe_join] maps the name to that path). *)
Theorem delete_orphans_shared_blob {env : Environment} (s : session) (song_id k : Z)
    (w w' : world) (b : body) (song other : song_row) :
  delete_song s song_id w = (w', Response 200 b) ->
  get_song song_id (db w) = Return (Some song) ->
  k <> song_id ->
  get_song k (db w) = Return (Some other) ->
  music_file_url other = music_file_url song ->
  get_song k (db w') = Return (Some other) /\
  fs w' !! blob_path other = None /\
  (safe_join SONG_DIRECTORY (music_file_url other) = Some (blob_path other) ->
   play_song k w' = (w', abort404)).
Proof.
  intros Hdel Hsong Hne Hother Hurl.
  destruct (delete_song_cases s song_id w w' _ Hdel)
    as [[_ Habs]|(song' & _ & Hrow & _ & -> & _)]; [exfalso; exact (Habs b eq_refl)|].
  rewrite Hsong in Hrow. injection Hrow as <-.
  assert (Hpath : blob_path other = blob_path song)
    by (unfold blob_path; rewrite Hurl; reflexivity).
  apply get_song_Return in Hother as [Hrange Hother].
  assert (Hkept : get_song k
            {| songs := delete song_id (songs (db w)); songs_seq := songs_seq (db w);
               users := users (db w); users_seq := users_seq (db w) |}
            = Return (Some other)).
  { apply get_song_Return. split; [assumption|]. simpl.
    rewrite lookup_delete_ne by congruence. exact Hother. }
  assert (Hgone : delete (blob_path song) (fs w) !! blob_path other = None)
    by (rewrite Hpath; apply lookup_delete_eq).
  simpl. split; [exact Hkept|]. split; [exact Hgone|].
  intros Hjoin. unfold play_song, send_from_directory. simpl.
  rewrite Hkept, Hjoin. simpl. rewrite Hgone. reflexivity.
Qed.

Lemma delete_orphans_shared_blob_witness :
  let cover := {| title := "Cover"; author := "B"; duration := 200;
                  music_file_url := "song.mp3" |} in
  let w := {| db := {| songs := {[ 1 := song_T; 2 := cover ]}; songs_seq := 2;
                       users := users two_users; users_seq := 2 |};
              fs := {[ "songs/song.mp3" := RegularFile [Byte.x01] ]} |} in
  let w' := fst (@delete_song demo_env (Some 1) 1 w) in
  get_song 2 (db w') = Return (Some cover) /\
  fs w' !! @blob_path demo_env cover = None /\
  (@safe_join demo_env (@SONG_DIRECTORY demo_env) (music_file_url cover)
   = Some (@blob_path demo_env cover) ->
   @play_song demo_env 2 w' = (w', abort404)).
Proof.
  intros cover w w'.
  apply (@delete_orphans_shared_blob demo_env (Some 1) 1 2 w w'
           (JMessage "Song deleted successfully") song_T cover).
  - vm_compute. reflexivity.
  - reflexivity.
  - discriminate.
  - reflexivity.
  - reflexivity.
Defined.
